(** * cu2qu: cubic-to-quadratic Bezier approximation

    A shallow embedding of [Lib/cu2qu/__init__.py] and the properties of
    its spline constructor, error sampler and search drivers.

    Numbers.  The Python code is duck-typed over numbers: it only uses
    [+ - * /], unary minus, [math.hypot], the comparisons [<=] and [>],
    the literals [0.5] and [1.5], and integers that it turns into numbers
    by mixing them into the arithmetic.  The embedding is therefore written
    over an interface [Arith] with exactly these operations, and the
    theorems hold for every interpretation of it; where a theorem needs a
    law of arithmetic, the law is a stated hypothesis.  The operations are
    total, as they are on floats, where an overflow gives an infinity; the
    one exception the arithmetic can raise is the [ZeroDivisionError] of
    [/], which is modelled ([OverflowError] on integers too large for a
    float is not).  Loop counters, lengths and segment counts are Python
    [int]s and are modelled by [Z].

    Exceptions.  Python exceptions are modelled by the error monad
    [result]; [try ... except] and [for ... else] are written out. *)

From Stdlib Require Import ZArith List Bool Lia.
From Stdlib Require Import QArith Qcanon Ring.
From Stdlib Require PrimFloat Uint63.
Import ListNotations.
Local Open Scope Z_scope.

(* ================================================================= *)
(** * Part I: the program *)
(* ================================================================= *)

(** ** Exceptions

    The exceptions and results are parameterised by the type [N] of
    numbers only; a cubic over [N] is four pairs of numbers. *)

(** [ApproxNotFoundError(curve, error)] keeps its two arguments in
    [self.curve] and [self.error]; [error] may be [None]. *)
Inductive exn (N : Type) : Type :=
| ZeroDivisionError
| ValueError
| IndexError
| TypeError
| UnboundLocalError
| AssertionError
| ApproxNotFoundError (curve : N * N * (N * N) * (N * N) * (N * N))
    (error : option N).

Arguments ZeroDivisionError {N}.
Arguments ValueError {N}.
Arguments IndexError {N}.
Arguments TypeError {N}.
Arguments UnboundLocalError {N}.
Arguments AssertionError {N}.
Arguments ApproxNotFoundError {N} curve error.

Inductive result (N T : Type) : Type :=
| Ok (v : T)
| Raise (e : exn N).

Arguments Ok {N T} v.
Arguments Raise {N T} e.

(** ** Numbers *)

Class Arith : Type := {
  num : Type;
  of_int : Z -> num;              (* an [int] used as a number *)
  lit_0_5 : num;                  (* the literal [0.5] *)
  lit_1_5 : num;                  (* the literal [1.5] *)
  nadd : num -> num -> num;       (* [x + y] *)
  nsub : num -> num -> num;       (* [x - y] *)
  nmul : num -> num -> num;       (* [x * y] *)
  ndiv : num -> num -> num;       (* [x / y], for [y] that is not zero *)
  nneg : num -> num;              (* [-x] *)
  hypot : num -> num -> num;      (* [math.hypot] *)
  nle : num -> num -> bool;       (* [x <= y] *)
  ngt : num -> num -> bool;       (* [x > y] *)
  is_zero : num -> bool           (* [x == 0], the test division makes *)
}.

Section Program.

Context {A : Arith}.

Definition point : Type := num * num.

(** A cubic Bezier [p], with [p[0]], [p[1]], [p[2]], [p[3]]. *)
Definition cubic : Type := point * point * point * point.

(** One quadratic segment (a triple of points). *)
Definition quadratic : Type := point * point * point.

Definition p_0 (p : cubic) : point := let '(a, _, _, _) := p in a.
Definition p_1 (p : cubic) : point := let '(_, b, _, _) := p in b.
Definition p_2 (p : cubic) : point := let '(_, _, c, _) := p in c.
Definition p_3 (p : cubic) : point := let '(_, _, _, d) := p in d.

Definition bind {T U : Type} (r : result num T) (k : T -> result num U) : result num U :=
  match r with
  | Ok v => k v
  | Raise e => Raise e
  end.

Notation "x <- r ;; k" := (bind r (fun x => k))
  (at level 61, r at next level, right associativity).
Notation "' pat <- r ;; k" := (bind r (fun x => match x with pat => k end))
  (at level 61, pat pattern, r at next level, right associativity).

(** ** Python built-ins used by the module *)

(** [range(lo, hi)]. *)
Definition range (lo hi : Z) : list Z :=
  map (fun k => lo + Z.of_nat k) (seq 0 (Z.to_nat (hi - lo))).

(** [l[i]], with Python's negative indices. *)
Definition getitem {T : Type} (l : list T) (i : Z) : result num T :=
  let j := if i <? 0 then i + Z.of_nat (length l) else i in
  if j <? 0 then Raise IndexError
  else match nth_error l (Z.to_nat j) with
       | Some x => Ok x
       | None => Raise IndexError
       end.

(** [a // b] on [int]s. *)
Definition floordiv (a b : Z) : result num Z :=
  if b =? 0 then Raise ZeroDivisionError else Ok (a / b).

(** [x / y] (true division) on numbers. *)
Definition truediv (x y : num) : result num num :=
  if is_zero y then Raise ZeroDivisionError else Ok (ndiv x y).

(** [x / n] with [n] an [int]: the divisor is zero when the [int] is. *)
Definition truediv_int (x : num) (n : Z) : result num num :=
  if n =? 0 then Raise ZeroDivisionError else Ok (ndiv x (of_int n)).

(** [max(a, b)]: the second argument wins only when it is greater. *)
Definition py_max (a b : num) : num := if ngt b a then b else a.

(** A [for] loop without [break]: the body threads the loop's variables. *)
Fixpoint for_each {S : Type} (xs : list Z) (s : S)
    (body : Z -> S -> result num S) : result num S :=
  match xs with
  | [] => Ok s
  | x :: xs' => s' <- body x s ;; for_each xs' s' body
  end.

(** A [for] loop with [break] and [continue]: the body says how it left. *)
Inductive flow (S : Type) : Type :=
| Next (s : S)      (* fell off the end of the body, or [continue] *)
| Break (s : S).    (* [break] *)

Arguments Next {S} s.
Arguments Break {S} s.

Fixpoint for_break {S : Type} (xs : list Z) (s : S)
    (body : Z -> S -> result num (flow S)) : result num (flow S) :=
  match xs with
  | [] => Ok (Next s)
  | x :: xs' =>
      r <- body x s ;;
      match r with
      | Break s' => Ok (Break s')
      | Next s' => for_break xs' s' body
      end
  end.

(** A list comprehension whose element expression may raise. *)
Fixpoint comprehension {T U : Type} (f : T -> result num U) (xs : list T)
    : result num (list U) :=
  match xs with
  | [] => Ok []
  | x :: xs' => y <- f x ;; ys <- comprehension f xs' ;; Ok (y :: ys)
  end.

(** ** Geometry primitives *)

Definition MAX_N : Z := 100.

Definition vector (p1 p2 : point) : point :=
  (nsub (fst p2) (fst p1), nsub (snd p2) (snd p1)).

Definition translate (p v : point) : point :=
  (nadd (fst p) (fst v), nadd (snd p) (snd v)).

Definition scale (v : point) (n : num) : point :=
  (nmul (fst v) n, nmul (snd v) n).

Definition dist (p1 p2 : point) : num :=
  hypot (nsub (fst p1) (fst p2)) (nsub (snd p1) (snd p2)).

Definition dot (v1 v2 : point) : num :=
  nadd (nmul (fst v1) (fst v2)) (nmul (snd v1) (snd v2)).

Definition lerp (a b t : num) : num :=
  nadd (nmul a (nsub (of_int 1) t)) (nmul b t).

Definition lerp_pt (p1 p2 : point) (t : num) : point :=
  let '(x1, y1) := p1 in
  let '(x2, y2) := p2 in
  (lerp x1 x2 t, lerp y1 y2 t).

Definition quadratic_bezier_at (p : quadratic) (t : num) : point :=
  let '((x1, y1), (x2, y2), (x3, y3)) := p in
  (lerp (lerp x1 x2 t) (lerp x2 x3 t) t,
   lerp (lerp y1 y2 t) (lerp y2 y3 t) t).

Definition cubic_bezier_at (p : cubic) (t : num) : point :=
  let '((x1, y1), (x2, y2), (x3, y3), (x4, y4)) := p in
  (lerp (lerp (lerp x1 x2 t) (lerp x2 x3 t) t)
        (lerp (lerp x2 x3 t) (lerp x3 x4 t) t) t,
   lerp (lerp (lerp y1 y2 t) (lerp y2 y3 t) t)
        (lerp (lerp y2 y3 t) (lerp y3 y4 t) t) t).

Definition cubic_approx (p : cubic) (t : num) : quadratic :=
  let p1 := lerp_pt (p_0 p) (p_1 p) lit_1_5 in
  let p2 := lerp_pt (p_3 p) (p_2 p) lit_1_5 in
  (p_0 p, lerp_pt p1 p2 t, p_3 p).

(** ** Tangent intersection *)

(** The normal [-ab[1], ab[0]] of [ab]. *)
Definition normal (ab : point) : point := (nneg (snd ab), fst ab).

(** The [ZeroDivisionError] of the division is caught and re-raised as
    [ValueError]. *)
Definition calc_intersect (p : cubic) : result num point :=
  let '(a, b, c, d) := p in
  let ab := vector a b in
  let cd := vector c d in
  let p := normal ab in
  h <- match truediv (dot p (vector c a)) (dot p cd) with
       | Raise ZeroDivisionError => Raise ValueError
       | r => r
       end ;;
  Ok (translate c (scale cd h)).

(** ** Spline constructor *)

Section Approximation.

(** [bezierTools.splitCubicAtT] belongs to fontTools, not to this module:
    it is a parameter of the constructor. *)
Variable splitCubicAtT : point -> point -> point -> point -> list num -> list cubic.

(** [None] is the absent result; [Some spline] a list of points. *)
Definition cubic_approx_spline (p : cubic) (n : Z)
    : result num (option (list point)) :=
  if n =? 1 then
    match calc_intersect p with
    | Raise ValueError => Ok None
    | Raise e => Raise e
    | Ok p1 => Ok (Some [p_0 p; p1; p_3 p])
    end
  else
    let spline := [p_0 p] in
    ts <- comprehension (fun i => truediv_int (of_int i) n) (range 1 n) ;;
    let segments := splitCubicAtT (p_0 p) (p_1 p) (p_2 p) (p_3 p) ts in
    spline <- for_each (range 0 (Z.of_nat (length segments))) spline
      (fun i spline =>
         seg <- getitem segments i ;;
         t <- truediv_int (of_int i) (n - 1) ;;
         let '(_, segment_1, _) := cubic_approx seg t in
         Ok (spline ++ [segment_1])) ;;
    Ok (Some (spline ++ [p_3 p])).

(** ** Error sampler *)

Definition TOTAL_STEPS : Z := 20.

(** The loop variables are [error] and [segment]; [segment] is unbound
    before the first iteration. *)
Definition curve_spline_dist (bezier : cubic) (spline : list point)
    : result num num :=
  let error := of_int 0 in
  let n := Z.of_nat (length spline) - 2 in
  steps <- floordiv TOTAL_STEPS n ;;
  '(error, _) <-
    for_each (range 1 (n + 1)) (error, None)
      (fun i '(error, segment) =>
         s0 <- (if i =? 1 then getitem spline 0
                else match segment with
                     | Some (_, _, segment_2) => Ok segment_2
                     | None => Raise UnboundLocalError
                     end) ;;
         s1 <- getitem spline i ;;
         s2 <- (if i =? n then getitem spline (i + 1)
                else a <- getitem spline i ;;
                     b <- getitem spline (i + 1) ;;
                     Ok (lerp_pt a b lit_0_5)) ;;
         let segment : quadratic := (s0, s1, s2) in
         error <- for_each (range 0 steps) error
           (fun j error =>
              u <- truediv_int (of_int j) steps ;;
              t <- truediv_int (nsub (nadd u (of_int i)) (of_int 1)) n ;;
              let p1 := cubic_bezier_at bezier t in
              v <- truediv_int (of_int j) steps ;;
              let p2 := quadratic_bezier_at segment v in
              Ok (py_max error (dist p1 p2))) ;;
         Ok (error, Some segment)) ;;
  Ok error.

(** ** Search drivers *)

(** The body of the loop of [curve_to_quadratic]; the loop variables are
    [spline] and [error], both [None] at the start. *)
Definition curve_to_quadratic_body (p : cubic) (max_err : num) (n : Z)
    (st : option (list point) * option num)
    : result num (flow (option (list point) * option num)) :=
  let '(_, error) := st in
  spline <- cubic_approx_spline p n ;;
  match spline with
  | None => Ok (Next (spline, error))           (* continue *)
  | Some s =>
      error <- curve_spline_dist p s ;;
      if nle error max_err then Ok (Break (spline, Some error))
      else Ok (Next (spline, Some error))
  end.

Definition curve_to_quadratic (p : cubic) (max_err : num)
    : result num (option (list point) * option num) :=
  r <- for_break (range 1 (MAX_N + 1)) (None, None)
         (curve_to_quadratic_body p max_err) ;;
  match r with
  | Next (_, error) => Raise (ApproxNotFoundError p error)
  | Break (spline, error) => Ok (spline, error)
  end.

(** Truth value of a spline or [None], as [all(splines)] tests it. *)
Definition truthy (s : option (list point)) : bool :=
  match s with
  | None => false
  | Some [] => false
  | Some (_ :: _) => true
  end.

(** [[curve_spline_dist(c, s) for c, s in zip(curves, splines)]]. *)
Definition spline_dists (curves : list cubic)
    (splines : list (option (list point))) : result num (list (option num)) :=
  comprehension
    (fun cs : cubic * option (list point) =>
       match snd cs with
       | Some s => e <- curve_spline_dist (fst cs) s ;; Ok (Some e)
       | None => Raise TypeError
       end)
    (combine curves splines).

(** [err <= max_err] where [err] may be [None]. *)
Definition le_opt (err : option num) (max_err : num) : result num bool :=
  match err with
  | Some e => Ok (nle e max_err)
  | None => Raise TypeError
  end.

(** [all(err <= max_err for err, max_err in zip(errors, max_errors))]. *)
Fixpoint all_within (ems : list (option num * num)) : result num bool :=
  match ems with
  | [] => Ok true
  | (err, max_err) :: ems' =>
      b <- le_opt err max_err ;;
      if b then all_within ems' else Ok false
  end.

Definition curves_to_quadratic_body (curves : list cubic)
    (max_errors : list num) (n : Z)
    (st : list (option (list point)) * list (option num))
    : result num (flow (list (option (list point)) * list (option num))) :=
  let '(_, errors) := st in
  splines <- comprehension (fun c => cubic_approx_spline c n) curves ;;
  if negb (forallb truthy splines) then Ok (Next (splines, errors))
  else
    errors <- spline_dists curves splines ;;
    b <- all_within (combine errors max_errors) ;;
    if b then Ok (Break (splines, errors))
    else Ok (Next (splines, errors)).

(** The loop of the [else] clause: raise for the first offending curve.
    [error > max_err] with [error] still [None] is a [TypeError] (Python 3);
    the loop is entered after the iteration at [MAX_N], which computes
    every error. *)
Fixpoint raise_first_offending
    (zs : list (cubic * option (list point) * option num * num))
    : result num unit :=
  match zs with
  | [] => Ok tt
  | (c, s, error, max_err) :: zs' =>
      offending <-
        match s with
        | None => Ok true
        | Some _ =>
            match error with
            | Some e => Ok (ngt e max_err)
            | None => Raise TypeError
            end
        end ;;
      if (offending : bool) then Raise (ApproxNotFoundError c error)
      else raise_first_offending zs'
  end.

Definition zip4 {T1 T2 T3 T4 : Type} (l1 : list T1) (l2 : list T2)
    (l3 : list T3) (l4 : list T4) : list (T1 * T2 * T3 * T4) :=
  combine (combine (combine l1 l2) l3) l4.

Definition curves_to_quadratic (curves : list cubic) (max_errors : list num)
    : result num (list (option (list point)) * list (option num)) :=
  let num_curves := length curves in
  if negb (Nat.eqb (length max_errors) num_curves) then Raise AssertionError
  else
    let splines := repeat None num_curves in
    let errors := repeat None num_curves in
    r <- for_break (range 1 (MAX_N + 1)) (splines, errors)
           (curves_to_quadratic_body curves max_errors) ;;
    match r with
    | Break (splines, errors) => Ok (splines, errors)
    | Next (splines, errors) =>
        _ <- raise_first_offending (zip4 curves splines errors max_errors) ;;
        Ok (splines, errors)
    end.

End Approximation.

End Program.

Arguments Next {S} s.
Arguments Break {S} s.

Notation "x <- r ;; k" := (bind r (fun x => k))
  (at level 61, r at next level, right associativity).
Notation "' pat <- r ;; k" := (bind r (fun x => match x with pat => k end))
  (at level 61, pat pattern, r at next level, right associativity).

(* ================================================================= *)
(** * Part II: two concrete arithmetics and a concrete subdivision *)
(* ================================================================= *)

(** ** Exact rational arithmetic

    The interpretation used to run the program on concrete curves: the
    canonical rationals [Qc], the exact arithmetic of the "real
    coordinates" of the data model.  [math.hypot] has no rational value in
    general; [Qc_hypot] is the square root rounded down to a multiple of
    [1/den], exact whenever the root is rational, and positive exactly when
    the true hypotenuse is. *)

Definition Qc_hypot (x y : Qc) : Qc :=
  let q := this (x * x + y * y)%Qc in
  Q2Qc (Z.sqrt (Qnum q * Zpos (Qden q)) # Qden q).

Definition Qc_arith : Arith := {|
  num := Qc;
  of_int := fun z => Q2Qc (inject_Z z);
  lit_0_5 := Q2Qc (1 # 2);
  lit_1_5 := Q2Qc (3 # 2);
  nadd := Qcplus;
  nsub := Qcminus;
  nmul := Qcmult;
  ndiv := Qcdiv;
  nneg := Qcopp;
  hypot := Qc_hypot;
  nle := fun x y => Qle_bool x y;
  ngt := fun x y => negb (Qle_bool x y);
  is_zero := fun x => Qeq_bool x 0
|}.

(** ** Subdivision of a cubic *)

Section Subdivision.

Context {A : Arith}.

(** Modelled from the spec: a step of the subdivision that stands for
    [bezierTools.splitCubicAtT].  De Casteljau's scheme with one parameter
    per level (the blossom of the cubic): [blossom p t t t] is the point of
    the curve at [t]. *)
Definition blossom (p : cubic) (u v w : num) : point :=
  let a1 := lerp_pt (p_0 p) (p_1 p) u in
  let b1 := lerp_pt (p_1 p) (p_2 p) u in
  let c1 := lerp_pt (p_2 p) (p_3 p) u in
  let a2 := lerp_pt a1 b1 v in
  let b2 := lerp_pt b1 c1 v in
  lerp_pt a2 b2 w.

(** Modelled from the spec: the control points of the piece of [p] between
    [t1] and [t2], a sub-curve of [bezierTools.splitCubicAtT]. *)
Definition piece (p : cubic) (t1 t2 : num) : cubic :=
  (blossom p t1 t1 t1, blossom p t1 t1 t2,
   blossom p t1 t2 t2, blossom p t2 t2 t2).

(** Modelled from the spec: the sub-curves of [bezierTools.splitCubicAtT]
    from [t1] on, one between each two consecutive parameters and a last
    one up to 1. *)
Fixpoint pieces (p : cubic) (t1 : num) (ts : list num) : list cubic :=
  match ts with
  | [] => [piece p t1 (of_int 1)]
  | t2 :: ts' => piece p t1 t2 :: pieces p t2 ts'
  end.

(** Modelled from the spec: [bezierTools.splitCubicAtT] is a function of
    fontTools and its code is not part of this module.  The spec asks for
    "the standard recursive curve-subdivision algorithm for splitting a
    cubic Bezier at given parameters", giving one sub-curve more than there
    are parameters: the pieces between consecutive parameters, from 0 to the
    first, ..., from the last to 1. *)
Definition subdivide (p0 p1 p2 p3 : point) (ts : list num) : list cubic :=
  pieces (p0, p1, p2, p3) (of_int 0) ts.

End Subdivision.

(** ** Concrete curves *)

Definition Qc_point (x y : Q) : @point Qc_arith := (Q2Qc x, Q2Qc y).

(** The rational coordinates of a point, a spline, a search result. *)
Definition point_coords (p : @point Qc_arith) : Q * Q :=
  (this (fst p), this (snd p)).

Definition spline_coords (s : list (@point Qc_arith)) : list (Q * Q) :=
  map point_coords s.

(** The straight cubic [[(0,0),(1,0),(2,0),(3,0)]]. *)
Definition straight_cubic : @cubic Qc_arith :=
  (Qc_point 0 0, Qc_point 1 0, Qc_point 2 0, Qc_point 3 0).

(** The arch [[(0,0),(0,1),(1,1),(1,0)]], a true cubic. *)
Definition arch_cubic : @cubic Qc_arith :=
  (Qc_point 0 0, Qc_point 0 1, Qc_point 1 1, Qc_point 1 0).

(** A curve with crossing tangents, [[(0,0),(1,2),(3,2),(4,0)]]. *)
Definition hill_cubic : @cubic Qc_arith :=
  (Qc_point 0 0, Qc_point 1 2, Qc_point 3 2, Qc_point 4 0).

(** ** What a run returned *)

Section Returned.

Context {A : Arith}.

(** The spline of a constructor result, [[]] when there is none. *)
Definition candidate_spline (r : result num (option (list point))) : list point :=
  match r with
  | Ok (Some s) => s
  | _ => []
  end.

(** The spline and the error of a search result. *)
Definition returned_spline (r : result num (option (list point) * option num))
    : list point :=
  match r with
  | Ok (Some s, _) => s
  | _ => []
  end.

Definition returned_error (r : result num (option (list point) * option num))
    : num :=
  match r with
  | Ok (_, Some e) => e
  | _ => of_int 0
  end.

(** The number of points of the returned spline. *)
Definition returned_length (r : result num (option (list point) * option num))
    : option nat :=
  match r with
  | Ok (Some s, _) => Some (length s)
  | _ => None
  end.

Definition returned_splines
    (r : result num (list (option (list point)) * list (option num)))
    : list (option (list point)) :=
  match r with
  | Ok (splines, _) => splines
  | Raise _ => []
  end.

Definition returned_errors
    (r : result num (list (option (list point)) * list (option num)))
    : list (option num) :=
  match r with
  | Ok (_, errors) => errors
  | Raise _ => []
  end.

End Returned.

(** ** Concrete runs *)

Definition tenth : @num Qc_arith := Q2Qc (1 # 10).

(** [curve_to_quadratic(hill, 0.1)]. *)
Definition hill_run := curve_to_quadratic (A := Qc_arith) subdivide hill_cubic tenth.

Definition hill_run_spline : list (@point Qc_arith) :=
  returned_spline (A := Qc_arith) hill_run.

Definition hill_run_error : @num Qc_arith :=
  returned_error (A := Qc_arith) hill_run.

(** [cubic_approx_spline(hill, 3)]. *)
Definition hill_spline_3 : list (@point Qc_arith) :=
  candidate_spline (cubic_approx_spline (A := Qc_arith) subdivide hill_cubic 3).

(** [curves_to_quadratic([hill, straight], [0.1, 0.1])]. *)
Definition batch_run :=
  curves_to_quadratic (A := Qc_arith) subdivide
    [hill_cubic; straight_cubic] [tenth; tenth].

Definition minus_one : @num Qc_arith := Q2Qc (-1).

Definition thousand : @num Qc_arith := Q2Qc 1000.

(** [curve_to_quadratic(straight, 1000)]. *)
Definition straight_run :=
  curve_to_quadratic (A := Qc_arith) subdivide straight_cubic thousand.

(** [curve_to_quadratic(arch, 0)]. *)
Definition arch_run :=
  curve_to_quadratic (A := Qc_arith) subdivide arch_cubic (of_int 0).

Definition batch_run_splines : list (option (list (@point Qc_arith))) :=
  returned_splines (A := Qc_arith) batch_run.

Definition batch_run_errors : list (option (@num Qc_arith)) :=
  returned_errors (A := Qc_arith) batch_run.

(** A batch whose second tolerance, [-1], no error can meet. *)
Definition hopeless_curves : list (@cubic Qc_arith) :=
  [hill_cubic; straight_cubic].

Definition hopeless_tolerances : list (@num Qc_arith) := [tenth; minus_one].

(** A spline of 23 points (21 segments) that is far from every cubic
    above: all its points are [(7, 7)]. *)
Definition far_spline : list (@point Qc_arith) := repeat (Qc_point 7 7) 23.

(** The quadratic [[(0,0),(3,3),(6,0)]] written as a cubic. *)
Definition elevated_cubic : @cubic Qc_arith :=
  (Qc_point 0 0, Qc_point 2 2, Qc_point 4 2, Qc_point 6 0).

(** The lines [y = 0] through [(0,0)], [(1,0)] and [x = 1] through [(1,1)],
    [(1,2)]; they meet at [(1,0)]. *)
Definition crossing_lines : @cubic Qc_arith :=
  (Qc_point 0 0, Qc_point 1 0, Qc_point 1 1, Qc_point 1 2).

(** ** Binary64 arithmetic

    The arithmetic the module runs in under CPython: a [float] is an IEEE
    754 binary64 number, as the kernel's primitive floats are.  [+ - * /],
    unary minus, [<=], [>] and [== 0] are the operations of the format,
    with its infinities, its signed zeros and its NaN, which compares
    false with everything.  An [int] mixed into the arithmetic becomes the
    float nearest to it (here for integers below [2^63] in absolute
    value).  [math.hypot] is the C library's function; [float_hypot] is the
    rounded square root of the rounded sum of the squares, which agrees
    with it up to rounding where the squares neither overflow nor
    underflow. *)

Section Binary64.

Import PrimFloat.

Definition float_of_int (z : Z) : float :=
  match z with
  | Z0 => 0%float
  | Zpos _ => of_uint63 (Uint63.of_Z z)
  | Zneg _ => opp (of_uint63 (Uint63.of_Z (- z)))
  end.

Definition float_hypot (x y : float) : float :=
  sqrt (add (mul x x) (mul y y)).

Definition float_arith : Arith :=
  Build_Arith
    float
    float_of_int                      (* an [int] used as a number *)
    0.5%float                         (* the literal [0.5] *)
    1.5%float                         (* the literal [1.5] *)
    add sub mul div opp
    float_hypot
    leb                               (* [x <= y] *)
    (fun x y => ltb y x)              (* [x > y] *)
    (fun x => eqb x 0%float).         (* [x == 0] *)

(** [float('nan')]. *)
Definition float_nan : @num float_arith := nan.

(** The literal [0.1]: the float nearest to one tenth. *)
Definition float_tenth : @num float_arith := 0x1.999999999999ap-4%float.

End Binary64.

Definition float_point (x y : Z) : @point float_arith :=
  (float_of_int x, float_of_int y).

(** The curves [[(0,0),(1,2),(3,2),(4,0)]] and [[(0,0),(0,1),(1,1),(1,0)]]
    once more, in floats. *)
Definition float_hill : @cubic float_arith :=
  (float_point 0 0, float_point 1 2, float_point 3 2, float_point 4 0).

Definition float_arch : @cubic float_arith :=
  (float_point 0 0, float_point 0 1, float_point 1 1, float_point 1 0).

(** [curves_to_quadratic([hill], [nan])] and
    [curve_to_quadratic(hill, nan)]. *)
Definition nan_batch_run :=
  curves_to_quadratic (A := float_arith) subdivide [float_hill] [float_nan].

Definition nan_batch_splines : list (option (list (@point float_arith))) :=
  returned_splines (A := float_arith) nan_batch_run.

Definition nan_batch_errors : list (option (@num float_arith)) :=
  returned_errors (A := float_arith) nan_batch_run.

Definition nan_single_run :=
  curve_to_quadratic (A := float_arith) subdivide float_hill float_nan.

(** [curves_to_quadratic([hill, arch], [0.1, nan])]. *)
Definition mixed_curves : list (@cubic float_arith) := [float_hill; float_arch].

Definition mixed_tolerances : list (@num float_arith) :=
  [float_tenth; float_nan].

Definition mixed_batch_run :=
  curves_to_quadratic (A := float_arith) subdivide
    mixed_curves mixed_tolerances.

Definition mixed_batch_splines : list (option (list (@point float_arith))) :=
  returned_splines (A := float_arith) mixed_batch_run.

Definition mixed_batch_errors : list (option (@num float_arith)) :=
  returned_errors (A := float_arith) mixed_batch_run.

(* ================================================================= *)
(** * Part III: the vocabulary of the statements *)
(* ================================================================= *)

Section Vocabulary.

Context {A : Arith}.

(** The test of [calc_intersect] on the two end tangents of a cubic: the
    normal of [p1 - p0] is orthogonal to [p3 - p2]. *)
Definition parallel_tangents (p : cubic) : bool :=
  is_zero (dot (normal (vector (p_0 p) (p_1 p))) (vector (p_2 p) (p_3 p))).

(** The intersection point as the specification words it: with
    [p = (-ab.y, ab.x)], [h = dot(p, c - a) / dot(p, cd)] and the point
    [c + h * cd].  The source takes [dot(p, vector(c, a))], which is
    [dot(p, a - c)]. *)
Definition intersection_as_specified (a b c d : point) : point :=
  let ab := (nsub (fst b) (fst a), nsub (snd b) (snd a)) in
  let cd := (nsub (fst d) (fst c), nsub (snd d) (snd c)) in
  let p := (nneg (snd ab), fst ab) in
  let c_minus_a := (nsub (fst c) (fst a), nsub (snd c) (snd a)) in
  let h := ndiv (dot p c_minus_a) (dot p cd) in
  (nadd (fst c) (nmul (fst cd) h), nadd (snd c) (nmul (snd cd) h)).

(** A straight-line-equivalent cubic: its four control points lie on one
    line, the points [o + s * v] for an origin [o], a direction [v] and
    four scalars [s]. *)
Definition colinear (p : cubic) : Prop :=
  exists (o v : point) (s0 s1 s2 s3 : num),
    p = (translate o (scale v s0), translate o (scale v s1),
         translate o (scale v s2), translate o (scale v s3)).

(** [p] is the quadratic with control point [q] written as a cubic (its
    degree elevation): both end tangents of [p], extended by half their
    length as [cubic_approx] extends them, end in [q]. *)
Definition elevation_of (q : point) (p : cubic) : Prop :=
  lerp_pt (p_0 p) (p_1 p) lit_1_5 = q /\
  lerp_pt (p_3 p) (p_2 p) lit_1_5 = q.

Section Search_vocabulary.

Variable splitCubicAtT : point -> point -> point -> point -> list num -> list cubic.

(** The candidate with [n] segments exists and its sampled error is within
    the tolerance. *)
Definition satisfies (p : cubic) (max_err : num) (n : Z) : Prop :=
  exists s e,
    cubic_approx_spline splitCubicAtT p n = Ok (Some s) /\
    curve_spline_dist p s = Ok e /\
    nle e max_err = true.

(** The sampled error of the candidate with [n] segments, when there is
    one. *)
Definition candidate_error (p : cubic) (n : Z) : result num (option num) :=
  s <- cubic_approx_spline splitCubicAtT p n ;;
  match s with
  | None => Ok None
  | Some s => e <- curve_spline_dist p s ;; Ok (Some e)
  end.

(** Every curve satisfies its own tolerance with [n] segments. *)
Definition all_satisfy (curves : list cubic) (max_errors : list num) (n : Z)
    : Prop :=
  Forall2 (fun c max_err => satisfies c max_err n) curves max_errors.

(** [splines] and [errors] are, curve by curve and in input order, the
    candidates with [n] segments and their sampled errors, each within the
    curve's own tolerance. *)
Inductive batch_result (n : Z)
  : list cubic -> list num ->
    list (option (list point)) -> list (option num) -> Prop :=
| batch_nil : batch_result n [] [] [] []
| batch_cons c max_err s e curves max_errors splines errors :
    cubic_approx_spline splitCubicAtT c n = Ok (Some s) ->
    curve_spline_dist c s = Ok e ->
    nle e max_err = true ->
    batch_result n curves max_errors splines errors ->
    batch_result n (c :: curves) (max_err :: max_errors)
      (Some s :: splines) (Some e :: errors).

(** [satisfies] as a test that can be run. *)
Definition within_tolerance (p : cubic) (max_err : num) (n : Z) : bool :=
  match candidate_error p n with
  | Ok (Some e) => nle e max_err
  | _ => false
  end.

(** The value of [candidate_error], [0] when there is none. *)
Definition candidate_error_value (p : cubic) (n : Z) : num :=
  match candidate_error p n with
  | Ok (Some e) => e
  | _ => of_int 0
  end.

End Search_vocabulary.

(** The loop variables of the batch search of one curve are those of the
    single search, each in a list of one element. *)
Definition singleton_state (st : option (list point) * option num)
    : list (option (list point)) * list (option num) :=
  ([fst st], [snd st]).

Definition singleton_flow
    (r : result num (flow (option (list point) * option num)))
    : result num (flow (list (option (list point)) * list (option num))) :=
  match r with
  | Ok (Next st) => Ok (Next (singleton_state st))
  | Ok (Break st) => Ok (Break (singleton_state st))
  | Raise ex => Raise ex
  end.

(** A tolerance that can be compared with [0]: [0 <= max_err] or
    [0 > max_err].  Every real tolerance is such; of the floats, only NaN
    is not. *)
Definition comparable_with_zero (max_err : num) : Prop :=
  nle (of_int 0) max_err = true \/ ngt (of_int 0) max_err = true.

End Vocabulary.


(* ================================================================= *)
(** * Part IV: properties *)
(* ================================================================= *)

(** ** Ranges, loops and comprehensions *)

Lemma range_empty (lo hi : Z) : hi <= lo -> range lo hi = [].
Proof.
  intros H. unfold range.
  replace (Z.to_nat (hi - lo)) with 0%nat by lia. reflexivity.
Qed.

Lemma range_cons (lo hi : Z) :
  lo < hi -> range lo hi = lo :: range (lo + 1) hi.
Proof.
  intros H. unfold range.
  replace (Z.to_nat (hi - lo)) with (S (Z.to_nat (hi - (lo + 1)))) by lia.
  rewrite <- cons_seq. simpl. f_equal; [lia|].
  rewrite <- seq_shift, map_map. apply map_ext. intros k. lia.
Qed.

Lemma range_snoc (lo hi : Z) :
  lo <= hi -> range lo (hi + 1) = range lo hi ++ [hi].
Proof.
  intros H. unfold range.
  replace (Z.to_nat (hi + 1 - lo)) with (Z.to_nat (hi - lo) + 1)%nat by lia.
  rewrite seq_app, map_app. simpl. do 2 f_equal. lia.
Qed.

Lemma range_length (lo hi : Z) : length (range lo hi) = Z.to_nat (hi - lo).
Proof. unfold range. now rewrite length_map, length_seq. Qed.

Lemma range_In (lo hi n : Z) : In n (range lo hi) <-> lo <= n < hi.
Proof.
  unfold range. rewrite in_map_iff. split.
  - intros (k & <- & Hk). apply in_seq in Hk. lia.
  - intros H. exists (Z.to_nat (n - lo)). split; [lia|].
    apply in_seq. lia.
Qed.

Lemma range_app (lo mid hi : Z) :
  lo <= mid <= hi -> range lo hi = range lo mid ++ range mid hi.
Proof.
  intros H. unfold range.
  replace (Z.to_nat (hi - lo))
    with (Z.to_nat (mid - lo) + Z.to_nat (hi - mid))%nat by lia.
  rewrite seq_app, map_app. f_equal. simpl.
  generalize (Z.to_nat (hi - mid)) as len. intros len.
  assert (Hmid : mid = lo + Z.of_nat (Z.to_nat (mid - lo))) by lia.
  revert Hmid. generalize (Z.to_nat (mid - lo)) as a. intros a ->.
  clear H. revert a. induction len as [|len IH]; intros a; [reflexivity|].
  rewrite <- !cons_seq. simpl. f_equal; [lia|].
  rewrite IH. change (seq 1 len) with (seq (S 0) len).
  rewrite <- (seq_shift len 0), map_map.
  apply map_ext. intros k. lia.
Qed.

Section Loops.

Context {A : Arith}.

(** A comprehension whose element expression never raises is a [map]. *)
Lemma comprehension_total {T U : Type} (f : T -> result num U) (g : T -> U) xs :
  (forall x, In x xs -> f x = Ok (g x)) ->
  comprehension f xs = Ok (map g xs).
Proof.
  induction xs as [|x xs IH]; simpl; intros H; [reflexivity|].
  rewrite (H x) by now left. simpl.
  rewrite IH by (intros y Hy; apply H; now right). reflexivity.
Qed.

(** An invariant indexed by the number of iterations done. *)
Lemma for_each_invariant {S : Type} (I : nat -> S -> Prop)
    (body : Z -> S -> result num S) xs s s' :
  I 0%nat s ->
  (forall k x t t', In x xs -> I k t -> body x t = Ok t' -> I (Datatypes.S k) t') ->
  for_each xs s body = Ok s' ->
  I (length xs) s'.
Proof.
  revert I s. induction xs as [|x xs IH]; simpl; intros I s H0 Hstep H.
  - now inversion H; subst.
  - destruct (body x s) as [t|e] eqn:E; simpl in H; [|discriminate].
    apply (IH (fun k => I (Datatypes.S k)) t); auto.
    + apply (Hstep 0%nat x s t); auto.
    + intros k y u u' Hy Hu Hb. apply (Hstep (Datatypes.S k) y u u'); auto.
Qed.

(** A loop whose body cannot raise under the invariant does not raise. *)
Lemma for_each_total {S : Type} (I : S -> Prop)
    (body : Z -> S -> result num S) xs s :
  I s ->
  (forall x t, In x xs -> I t -> exists t', body x t = Ok t' /\ I t') ->
  exists s', for_each xs s body = Ok s' /\ I s'.
Proof.
  revert s. induction xs as [|x xs IH]; simpl; intros s H0 Hstep.
  - now exists s.
  - destruct (Hstep x s) as (t & E & Ht); auto.
    rewrite E. simpl. apply IH; auto.
Qed.

(** How a [for] loop with [break] over a range ends with [break]: at some
    [n] of the range, every earlier [m] having gone to the next
    iteration. *)
Lemma for_break_range_Break {S : Type} (body : Z -> S -> result num (flow S))
    (lo hi : Z) s s' :
  for_break (range lo hi) s body = Ok (Break s') ->
  exists n s0,
    lo <= n < hi /\ body n s0 = Ok (Break s') /\
    forall m, lo <= m < n -> exists t t', body m t = Ok (Next t').
Proof.
  remember (Z.to_nat (hi - lo)) as len eqn:Hlen.
  revert lo s Hlen. induction len as [|len IH]; intros lo s Hlen H.
  - rewrite range_empty in H by lia. discriminate.
  - rewrite range_cons in H by lia. cbn [for_break] in H.
    destruct (body lo s) as [[t|t]|e] eqn:E; cbn [bind] in H;
      try discriminate.
    + destruct (IH (lo + 1) t) as (n & s0 & Hn & Hb & Hbefore); [lia|exact H|].
      exists n, s0. repeat split; try lia; auto.
      intros m Hm. destruct (Z.eq_dec m lo) as [->|Hne]; [eauto|].
      apply Hbefore. lia.
    + inversion H; subst. exists lo, s. repeat split; try lia; auto.
Qed.

Lemma for_break_cons {S : Type} (body : Z -> S -> result num (flow S)) x xs s :
  for_break (x :: xs) s body =
  r <- body x s ;;
  match r with
  | Break s' => Ok (Break s')
  | Next s' => for_break xs s' body
  end.
Proof. reflexivity. Qed.

Lemma bind_Ok {T U : Type} (v : T) (k : T -> result num U) : bind (Ok v) k = k v.
Proof. reflexivity. Qed.

Lemma for_break_app {S : Type} (body : Z -> S -> result num (flow S)) xs ys s :
  for_break (xs ++ ys) s body =
  r <- for_break xs s body ;;
  match r with
  | Break s' => Ok (Break s')
  | Next s' => for_break ys s' body
  end.
Proof.
  revert s. induction xs as [|x xs IH]; simpl; intros s; [reflexivity|].
  destruct (body x s) as [[t|t]|e]; simpl; auto.
Qed.

(** While every body goes to the next iteration, so does the loop. *)
Lemma for_break_all_Next {S : Type} (I : S -> Prop)
    (body : Z -> S -> result num (flow S)) xs s :
  I s ->
  (forall x t, In x xs -> I t -> exists t', body x t = Ok (Next t') /\ I t') ->
  exists s', for_break xs s body = Ok (Next s') /\ I s'.
Proof.
  revert s. induction xs as [|x xs IH]; simpl; intros s H0 Hstep.
  - now exists s.
  - destruct (Hstep x s) as (t & E & Ht); auto.
    rewrite E. simpl. apply IH; auto.
Qed.

(** A loop whose body never raises does not raise. *)
Lemma for_break_total {S : Type} (body : Z -> S -> result num (flow S)) xs s :
  (forall x t, In x xs -> exists r, body x t = Ok r) ->
  exists r, for_break xs s body = Ok r.
Proof.
  revert s. induction xs as [|x xs IH]; simpl; intros s Hbody; [eauto|].
  destruct (Hbody x s) as ([t|t] & ->); auto; cbn [bind]; eauto.
Qed.

(** The state at exhaustion is the one the last iteration left. *)
Lemma for_break_range_Next {S : Type} (body : Z -> S -> result num (flow S))
    (lo hi : Z) s s' :
  lo <= hi ->
  for_break (range lo (hi + 1)) s body = Ok (Next s') ->
  exists s0, body hi s0 = Ok (Next s').
Proof.
  intros Hle. rewrite range_snoc, for_break_app by exact Hle.
  destruct (for_break (range lo hi) s body) as [[t|t]|e]; cbn [bind];
    try discriminate.
  cbn [for_break]. destruct (body hi t) as [[u|u]|e] eqn:E; cbn [bind];
    try discriminate.
  intros [= <-]. eauto.
Qed.

Lemma getitem_nth {T : Type} (l : list T) (i : Z) (x : T) :
  0 <= i -> nth_error l (Z.to_nat i) = Some x -> getitem l i = Ok x.
Proof.
  intros Hi Hx. unfold getitem.
  destruct (i <? 0) eqn:E; [lia|]. rewrite E. now rewrite Hx.
Qed.

Lemma getitem_in_range {T : Type} (l : list T) (i : Z) :
  0 <= i < Z.of_nat (length l) -> exists x, getitem l i = Ok x.
Proof.
  intros Hi. destruct (nth_error l (Z.to_nat i)) as [x|] eqn:E.
  - exists x. apply getitem_nth; [lia|assumption].
  - apply nth_error_None in E. lia.
Qed.

End Loops.

(** ** Tangent intersection and the spline constructor *)

Section Constructor_properties.

Context {A : Arith}.
Variable splitCubicAtT : point -> point -> point -> point -> list num -> list cubic.

(** The two outcomes of [calc_intersect]. *)
Lemma calc_intersect_cases (p : cubic) :
  calc_intersect p =
  if parallel_tangents p then Raise ValueError
  else
    let cd := vector (p_2 p) (p_3 p) in
    let n := normal (vector (p_0 p) (p_1 p)) in
    Ok (translate (p_2 p)
          (scale cd (ndiv (dot n (vector (p_2 p) (p_0 p))) (dot n cd)))).
Proof.
  destruct p as [[[a b] c] d]. unfold calc_intersect, parallel_tangents, truediv.
  simpl. destruct (is_zero _); reflexivity.
Qed.

Lemma cubic_approx_spline_1 (p : cubic) :
  cubic_approx_spline splitCubicAtT p 1 =
  match calc_intersect p with
  | Ok p1 => Ok (Some [p_0 p; p1; p_3 p])
  | Raise _ => Ok None
  end.
Proof.
  unfold cubic_approx_spline. simpl.
  rewrite calc_intersect_cases. destruct (parallel_tangents p); reflexivity.
Qed.

(** For [n <> 1] the constructor runs its loop to the end: one control
    point per sub-curve, between the two end points of the cubic. *)
Lemma cubic_approx_spline_general (p : cubic) (n : Z) :
  n <> 1 ->
  exists ts ctrl,
    cubic_approx_spline splitCubicAtT p n = Ok (Some (p_0 p :: ctrl ++ [p_3 p])) /\
    length ts = Z.to_nat (n - 1) /\
    length ctrl =
      length (splitCubicAtT (p_0 p) (p_1 p) (p_2 p) (p_3 p) ts).
Proof.
  intros Hn. unfold cubic_approx_spline.
  destruct (n =? 1) eqn:E; [lia|].
  rewrite (comprehension_total _ (fun i => ndiv (of_int i) (of_int n))).
  2:{ intros i Hi. apply range_In in Hi. unfold truediv_int.
      destruct (n =? 0) eqn:E0; [lia|reflexivity]. }
  cbn [bind].
  set (ts := map _ (range 1 n)).
  set (segments := splitCubicAtT _ _ _ _ ts).
  destruct (for_each_total
              (fun sp : list point => True)
              (fun i spline =>
                 seg <- getitem segments i ;;
                 t <- truediv_int (of_int i) (n - 1) ;;
                 let '(_, segment_1, _) := cubic_approx seg t in
                 Ok (spline ++ [segment_1]))
              (range 0 (Z.of_nat (length segments))) [p_0 p] I)
    as (sp & Hsp & _).
  { intros i sp Hi _. apply range_In in Hi.
    destruct (getitem_in_range segments i) as (seg & ->); [lia|].
    simpl. unfold truediv_int. destruct (n - 1 =? 0) eqn:E1; [lia|].
    simpl. eexists. split; [reflexivity|exact I]. }
  assert (Hinv : exists ctrl, sp = p_0 p :: ctrl /\
            length ctrl = length (range 0 (Z.of_nat (length segments)))).
  { eapply (for_each_invariant
              (fun k (sp : list point) =>
                 exists ctrl, sp = p_0 p :: ctrl /\ length ctrl = k));
      [| |exact Hsp].
    - exists []. split; reflexivity.
    - intros k i t t' _ (c & -> & Hc) Hb. simpl in Hb.
      destruct (getitem segments i) as [seg|]; simpl in Hb; [|discriminate].
      destruct (truediv_int (of_int i) (n - 1)) as [u|]; simpl in Hb;
        [|discriminate].
      inversion Hb; subst. eexists. split; [reflexivity|].
      rewrite length_app. simpl. lia. }
  destruct Hinv as (ctrl & -> & Hlen).
  exists ts, ctrl. rewrite Hsp. simpl. split; [reflexivity|].
  split.
  - unfold ts. now rewrite length_map, range_length.
  - rewrite Hlen, range_length. fold segments. lia.
Qed.

End Constructor_properties.

Section Intersection_theorems.

Context {A : Arith}.

(** C6 (as amended).  For every quadruple of points [(a, b, c, d)] whose
    lines are not parallel, [calc_intersect] takes the normal
    [p = (-ab.y, ab.x)] of [ab = b - a], sets
    [h = dot(p, a - c) / dot(p, cd)] with [cd = d - c] (the vector from [c]
    to [a], not [c - a]), and returns the point [c + h * cd]. *)
Theorem calc_intersect_value (a b c d : point) :
  let ab := (nsub (fst b) (fst a), nsub (snd b) (snd a)) in
  let cd := (nsub (fst d) (fst c), nsub (snd d) (snd c)) in
  let p := (nneg (snd ab), fst ab) in
  let a_minus_c := (nsub (fst a) (fst c), nsub (snd a) (snd c)) in
  let h := ndiv (dot p a_minus_c) (dot p cd) in
  is_zero (dot p cd) = false ->
  calc_intersect (a, b, c, d) =
  Ok (nadd (fst c) (nmul (fst cd) h), nadd (snd c) (nmul (snd cd) h)).
Proof.
  intros ab cd p a_minus_c h Hnz.
  rewrite calc_intersect_cases.
  unfold parallel_tangents, normal, vector, translate, scale,
    p_0, p_1, p_2, p_3.
  subst h a_minus_c p cd ab. cbn [fst snd] in Hnz |- *.
  rewrite Hnz. reflexivity.
Qed.

End Intersection_theorems.

Section Constructor_theorems.

Context {A : Arith}.
Variable splitCubicAtT : point -> point -> point -> point -> list num -> list cubic.

(** The one property of [splitCubicAtT] the shape of a spline depends on:
    [k] parameters give [k + 1] sub-curves. *)
Hypothesis split_length : forall p0 p1 p2 p3 ts,
  length (splitCubicAtT p0 p1 p2 p3 ts) = S (length ts).

Lemma cubic_approx_spline_structure (p : cubic) (n : Z) (s : list point) :
  1 <= n ->
  cubic_approx_spline splitCubicAtT p n = Ok (Some s) ->
  exists ctrl, s = p_0 p :: ctrl ++ [p_3 p] /\ Z.of_nat (length ctrl) = n.
Proof.
  intros Hn Hs. destruct (Z.eq_dec n 1) as [->|Hn1].
  - rewrite cubic_approx_spline_1 in Hs.
    destruct (calc_intersect p) as [p1|e]; inversion Hs; subst.
    exists [p1]. split; reflexivity.
  - destruct (cubic_approx_spline_general splitCubicAtT p n Hn1)
      as (ts & ctrl & E & Hts & Hctrl).
    rewrite E in Hs. inversion Hs; subst.
    exists ctrl. split; [reflexivity|].
    rewrite Hctrl, split_length, Hts. lia.
Qed.

Lemma cubic_approx_spline_length (p : cubic) (n : Z) (s : list point) :
  1 <= n ->
  cubic_approx_spline splitCubicAtT p n = Ok (Some s) ->
  Z.of_nat (length s) = n + 2.
Proof.
  intros Hn Hs.
  destruct (cubic_approx_spline_structure p n s Hn Hs) as (ctrl & -> & Hlen).
  simpl. rewrite length_app. simpl. lia.
Qed.

(** C2.  For every cubic [p] and every [n >= 1], whenever
    [cubic_approx_spline(p, n)] returns a spline, the spline has exactly
    [n + 2] points, its first point [spline[0]] is [p[0]] and its last
    point [spline[-1]] is [p[3]]. *)
Theorem cubic_approx_spline_shape (p : cubic) (n : Z) (s : list point) :
  1 <= n ->
  cubic_approx_spline splitCubicAtT p n = Ok (Some s) ->
  Z.of_nat (length s) = n + 2 /\
  getitem s 0 = Ok (p_0 p) /\
  getitem s (-1) = Ok (p_3 p).
Proof.
  intros Hn Hs.
  destruct (cubic_approx_spline_structure p n s Hn Hs) as (ctrl & -> & Hlen).
  split; [|split].
  - simpl. rewrite length_app. simpl. lia.
  - reflexivity.
  - unfold getitem. cbn [Z.ltb Z.compare].
    set (l := p_0 p :: ctrl ++ [p_3 p]).
    assert (Hl : Z.of_nat (length l) = n + 2).
    { unfold l. simpl. rewrite length_app. simpl. lia. }
    destruct (-1 + Z.of_nat (length l) <? 0) eqn:E; [lia|].
    replace (Z.to_nat (-1 + Z.of_nat (length l))) with (S (length ctrl)) by lia.
    unfold l. simpl. rewrite nth_error_app2 by lia.
    now rewrite Nat.sub_diag.
Qed.

End Constructor_theorems.

(** ** The error sampler *)

Section Sampler_properties.

Context {A : Arith}.

(** The sampling loop of one segment: it does not raise, and keeps any
    property of [error] that [max] with a sample keeps. *)
Lemma sample_loop (bezier : cubic) (segment : quadratic) (i n steps : Z)
    (P : num -> Prop) (error : num) :
  n <> 0 ->
  P error ->
  (forall e d, 0 < steps -> P e -> P (py_max e d)) ->
  exists error',
    for_each (range 0 steps) error
      (fun j error =>
         u <- truediv_int (of_int j) steps ;;
         t <- truediv_int (nsub (nadd u (of_int i)) (of_int 1)) n ;;
         v <- truediv_int (of_int j) steps ;;
         Ok (py_max error (dist (cubic_bezier_at bezier t)
                                (quadratic_bezier_at segment v))))
    = Ok error' /\
    P error'.
Proof.
  intros Hn H0 Hmax. apply for_each_total; [exact H0|].
  intros j e Hj He. apply range_In in Hj.
  unfold truediv_int.
  destruct (steps =? 0) eqn:E; [lia|]. destruct (n =? 0) eqn:E'; [lia|].
  cbn [bind]. eexists. split; [reflexivity|]. apply Hmax; [lia|exact He].
Qed.

(** On a spline of at least three points ([n >= 1] segments) the sampler
    runs to the end, and its result has every property that holds of [0]
    and is kept by [max] with a sample, when samples are taken at all. *)
Lemma curve_spline_dist_runs (bezier : cubic) (spline : list point)
    (P : num -> Prop) :
  let n := Z.of_nat (length spline) - 2 in
  1 <= n ->
  P (of_int 0) ->
  (forall e d, 0 < TOTAL_STEPS / n -> P e -> P (py_max e d)) ->
  exists error, curve_spline_dist bezier spline = Ok error /\ P error.
Proof.
  intros n Hn H0 Hmax. unfold curve_spline_dist. fold n.
  unfold floordiv. destruct (n =? 0) eqn:E; [lia|]. cbn [bind].
  set (steps := TOTAL_STEPS / n) in *.
  match goal with
  | |- exists error, bind (for_each _ _ ?body) _ = Ok error /\ _ =>
      set (b := body);
      assert (Hstep : forall i e seg,
                1 <= i <= n -> (i = 1 \/ seg <> None) -> P e ->
                exists e' seg', b i (e, seg) = Ok (e', Some seg') /\ P e')
  end.
  { intros i e seg Hi Hseg He. unfold b.
    destruct (getitem_in_range spline i) as (x1 & E1); [lia|].
    destruct (getitem_in_range spline (i + 1)) as (x2 & E2); [lia|].
    destruct (getitem_in_range spline 0) as (x0 & E0); [lia|].
    assert (Hs0 : exists s0,
              (if i =? 1 then getitem spline 0
               else match seg with
                    | Some (_, _, segment_2) => Ok segment_2
                    | None => Raise UnboundLocalError
                    end) = Ok s0).
    { destruct (i =? 1) eqn:Ei; [eauto|].
      destruct seg as [[[? ?] s2]|]; [eauto|].
      destruct Hseg; [lia|congruence]. }
    destruct Hs0 as (s0 & ->). rewrite E1, E2. cbn [bind].
    assert (Hs2 : exists s2,
              (if i =? n then Ok x2 else Ok (lerp_pt x1 x2 lit_0_5))
              = Ok (N := num) s2) by (destruct (i =? n); eauto).
    destruct Hs2 as (s2 & ->). cbn [bind].
    destruct (sample_loop bezier (s0, x1, s2) i n steps P e) as (e' & -> & He');
      auto; [lia|].
    cbn [bind]. eauto. }
  clearbody b.
  assert (Hloop : forall is_ e seg,
            (forall i, In i is_ -> 1 <= i <= n) ->
            (seg <> None \/ exists is', is_ = 1 :: is' /\ ~ In 1 is') ->
            P e ->
            exists e' seg', for_each is_ (e, seg) b = Ok (e', seg') /\ P e').
  { induction is_ as [|i is_ IH]; intros e seg Hin Hseg He.
    - simpl. eauto.
    - cbn [for_each].
      destruct (Hstep i e seg) as (e1 & seg1 & -> & He1); auto.
      + apply Hin. now left.
      + destruct Hseg as [?|(is' & [= -> _] & _)]; auto.
      + cbn [bind]. apply IH; auto.
        * intros j Hj. apply Hin. now right.
        * left. discriminate. }
  destruct (Hloop (range 1 (n + 1)) (of_int 0) None) as (e & seg & -> & He);
    auto.
  - intros i Hi. apply range_In in Hi. lia.
  - right. exists (range 2 (n + 1)). split.
    + now rewrite range_cons by lia.
    + rewrite range_In. lia.
  - cbn [bind]. eauto.
Qed.

(** With more than 20 segments no sample is taken. *)
Lemma curve_spline_dist_no_samples (bezier : cubic) (spline : list point) :
  21 <= Z.of_nat (length spline) - 2 ->
  curve_spline_dist bezier spline = Ok (of_int 0).
Proof.
  intros Hn.
  assert (Hsteps : TOTAL_STEPS / (Z.of_nat (length spline) - 2) = 0)
    by (apply Z.div_small; unfold TOTAL_STEPS; lia).
  destruct (curve_spline_dist_runs bezier spline (fun e => e = of_int 0))
    as (e & He & ->); auto.
  - lia.
  - rewrite Hsteps. lia.
Qed.

End Sampler_properties.

Section Sampler_theorems.

Context {A : Arith}.

(** C10.  For every cubic and every candidate spline with more than 20
    segments ([n >= 21]), the per-segment step count [20 // n] is 0, no
    sample is taken and [curve_spline_dist] returns [0]; so the candidate
    passes every tolerance [max_err] with [0 <= max_err]. *)
Theorem curve_spline_dist_unsampled (bezier : cubic) (spline : list point)
    (max_err : num) :
  let n := Z.of_nat (length spline) - 2 in
  21 <= n ->
  TOTAL_STEPS / n = 0 /\
  range 0 (TOTAL_STEPS / n) = [] /\
  curve_spline_dist bezier spline = Ok (of_int 0) /\
  (nle (of_int 0) max_err = true ->
   exists error,
     curve_spline_dist bezier spline = Ok error /\ nle error max_err = true).
Proof.
  intros n Hn.
  assert (Hsteps : TOTAL_STEPS / n = 0)
    by (apply Z.div_small; unfold TOTAL_STEPS; lia).
  assert (Hdist : curve_spline_dist bezier spline = Ok (of_int 0))
    by (apply curve_spline_dist_no_samples; exact Hn).
  repeat split; auto.
  - rewrite Hsteps. reflexivity.
  - intros Htol. exists (of_int 0). split; assumption.
Qed.

End Sampler_theorems.

(** ** The single-curve search *)

Section Search_properties.

Context {A : Arith}.
Variable splitCubicAtT : point -> point -> point -> point -> list num -> list cubic.

(** What one iteration of the search does. *)
Lemma curve_to_quadratic_body_cases (p : cubic) (max_err : num) (n : Z) st r :
  curve_to_quadratic_body splitCubicAtT p max_err n st = Ok r ->
  match r with
  | Break (spline, error) =>
      exists s e,
        spline = Some s /\ error = Some e /\
        cubic_approx_spline splitCubicAtT p n = Ok (Some s) /\
        curve_spline_dist p s = Ok e /\
        nle e max_err = true
  | Next (spline, error) =>
      (cubic_approx_spline splitCubicAtT p n = Ok None /\
       spline = None /\ error = snd st) \/
      (exists s e,
         spline = Some s /\ error = Some e /\
         cubic_approx_spline splitCubicAtT p n = Ok (Some s) /\
         curve_spline_dist p s = Ok e /\
         nle e max_err = false)
  end.
Proof.
  unfold curve_to_quadratic_body. destruct st as [sp0 er0].
  destruct (cubic_approx_spline splitCubicAtT p n) as [[s|]|ex] eqn:Hs;
    cbn [bind]; intros H; try discriminate.
  - destruct (curve_spline_dist p s) as [e|ex] eqn:He; cbn [bind] in H;
      try discriminate.
    destruct (nle e max_err) eqn:Hle; inversion H; subst.
    + exists s, e. repeat split; auto.
    + right. exists s, e. repeat split; auto.
  - inversion H; subst. left. repeat split; auto.
Qed.

Lemma curve_to_quadratic_body_absent (p : cubic) (max_err : num) (n : Z) st :
  cubic_approx_spline splitCubicAtT p n = Ok None ->
  curve_to_quadratic_body splitCubicAtT p max_err n st
  = Ok (Next (None, snd st)).
Proof.
  intros H. unfold curve_to_quadratic_body. destruct st as [sp er].
  rewrite H. reflexivity.
Qed.

Lemma curve_to_quadratic_body_found (p : cubic) (max_err : num) (n : Z) st
    s e :
  cubic_approx_spline splitCubicAtT p n = Ok (Some s) ->
  curve_spline_dist p s = Ok e ->
  curve_to_quadratic_body splitCubicAtT p max_err n st
  = Ok (if nle e max_err then Break (Some s, Some e)
        else Next (Some s, Some e)).
Proof.
  intros Hs He. unfold curve_to_quadratic_body. destruct st as [sp er].
  rewrite Hs. cbn [bind]. rewrite He. cbn [bind].
  destruct (nle e max_err); reflexivity.
Qed.

(** An iteration that goes on to the next [n] did not satisfy the
    tolerance at this [n]. *)
Lemma curve_to_quadratic_body_Next (p : cubic) (max_err : num) (n : Z) st st' :
  curve_to_quadratic_body splitCubicAtT p max_err n st = Ok (Next st') ->
  ~ satisfies splitCubicAtT p max_err n.
Proof.
  intros H (s & e & Hs & He & Hle).
  apply curve_to_quadratic_body_cases in H. destruct st' as [sp er].
  destruct H as [(Hnone & _)|(s' & e' & _ & _ & Hs' & He' & Hle')];
    congruence.
Qed.

(** A successful search stopped at some [n] of the range, the first one
    that satisfies the tolerance, and returns that candidate with its
    sampled error. *)
Lemma curve_to_quadratic_first (p : cubic) (max_err : num) spline error :
  curve_to_quadratic splitCubicAtT p max_err = Ok (spline, error) ->
  exists n s e,
    1 <= n <= MAX_N /\
    spline = Some s /\ error = Some e /\
    cubic_approx_spline splitCubicAtT p n = Ok (Some s) /\
    curve_spline_dist p s = Ok e /\
    nle e max_err = true /\
    forall m, 1 <= m < n -> ~ satisfies splitCubicAtT p max_err m.
Proof.
  unfold curve_to_quadratic. intros H.
  destruct (for_break _ _ _) as [[[sp er]|[sp er]]|ex] eqn:E;
    cbn [bind] in H; try discriminate.
  inversion H; subst. clear H.
  apply for_break_range_Break in E.
  destruct E as (n & s0 & Hn & Hbody & Hbefore).
  apply curve_to_quadratic_body_cases in Hbody.
  destruct Hbody as (s & e & -> & -> & Hs & He & Hle).
  exists n, s, e. repeat split; auto; try lia.
  intros m Hm. destruct (Hbefore m Hm) as (t & t' & Hb).
  eapply curve_to_quadratic_body_Next; eauto.
Qed.

End Search_properties.

Section Search_theorems.

Context {A : Arith}.
Variable splitCubicAtT : point -> point -> point -> point -> list num -> list cubic.

(** C1.  For every cubic [p] and every [max_err], if
    [curve_to_quadratic(p, max_err)] returns a pair [(spline, error)] then
    neither is [None], [error] is [curve_spline_dist(p, spline)] and
    [error <= max_err]: a spline whose sampled error exceeds the tolerance
    is never returned. *)
Theorem curve_to_quadratic_within_tolerance (p : cubic) (max_err : num)
    spline error :
  curve_to_quadratic splitCubicAtT p max_err = Ok (spline, error) ->
  exists s e,
    spline = Some s /\ error = Some e /\
    curve_spline_dist p s = Ok e /\
    nle e max_err = true.
Proof.
  intros H. apply curve_to_quadratic_first in H.
  destruct H as (n & s & e & _ & Hs & He & _ & Hd & Hle & _).
  exists s, e. repeat split; assumption.
Qed.

Hypothesis split_length : forall p0 p1 p2 p3 ts,
  length (splitCubicAtT p0 p1 p2 p3 ts) = S (length ts).

(** The search stops at the smallest [n] that satisfies the tolerance, and
    the spline it returns has [n] segments. *)
Lemma curve_to_quadratic_smallest (p : cubic) (max_err : num) s e :
  curve_to_quadratic splitCubicAtT p max_err = Ok (Some s, Some e) ->
  exists n,
    1 <= n <= 100 /\
    Z.of_nat (length s) = n + 2 /\
    cubic_approx_spline splitCubicAtT p n = Ok (Some s) /\
    curve_spline_dist p s = Ok e /\
    nle e max_err = true /\
    forall m, 1 <= m < n -> ~ satisfies splitCubicAtT p max_err m.
Proof.
  intros H. apply curve_to_quadratic_first in H.
  destruct H as (n & s' & e' & Hn & [= <-] & [= <-] & Hs & Hd & Hle & Hmin).
  exists n. repeat split; auto; try (unfold MAX_N in Hn; lia).
  apply (cubic_approx_spline_length splitCubicAtT split_length p n s);
    [lia|assumption].
Qed.

(** Every candidate exists for [n >= 2]; for [n = 1] the constructor
    returns a spline or [None].  It never raises. *)
Lemma cubic_approx_spline_runs (p : cubic) (n : Z) :
  1 <= n ->
  cubic_approx_spline splitCubicAtT p n = Ok None \/
  exists s, cubic_approx_spline splitCubicAtT p n = Ok (Some s) /\
            Z.of_nat (length s) = n + 2.
Proof.
  intros Hn.
  assert (Hr : exists r, cubic_approx_spline splitCubicAtT p n = Ok r).
  { destruct (Z.eq_dec n 1) as [->|Hn1].
    - rewrite cubic_approx_spline_1. destruct (calc_intersect p); eauto.
    - destruct (cubic_approx_spline_general splitCubicAtT p n Hn1)
        as (ts & ctrl & E & _). eauto. }
  destruct Hr as ([s|] & Hr); [right|left; exact Hr].
  exists s. split; [exact Hr|].
  apply (cubic_approx_spline_length splitCubicAtT split_length p n s);
    [lia|assumption].
Qed.

(** On the candidates of the constructor the sampler does not raise. *)
Lemma candidate_dist_runs (p : cubic) (n : Z) (s : list point) :
  1 <= n ->
  cubic_approx_spline splitCubicAtT p n = Ok (Some s) ->
  exists e, curve_spline_dist p s = Ok e.
Proof.
  intros Hn Hs.
  pose proof (cubic_approx_spline_length splitCubicAtT split_length p n s
                ltac:(lia) Hs) as Hlen.
  destruct (curve_spline_dist_runs p s (fun _ => True)) as (e & He & _);
    auto; [lia|eauto].
Qed.

Lemma curve_to_quadratic_body_runs (p : cubic) (max_err : num) (n : Z) st :
  1 <= n ->
  exists r, curve_to_quadratic_body splitCubicAtT p max_err n st = Ok r.
Proof.
  intros Hn. unfold curve_to_quadratic_body. destruct st as [sp er].
  destruct (cubic_approx_spline_runs p n Hn) as [->|(s & Hs & _)].
  - cbn [bind]. eauto.
  - rewrite Hs. cbn [bind].
    destruct (candidate_dist_runs p n s Hn Hs) as (e & ->). cbn [bind].
    destruct (nle e max_err); eauto.
Qed.

(** With 21 segments the candidate exists and its sampled error is [0]. *)
Lemma candidate_21 (p : cubic) (n : Z) :
  21 <= n ->
  exists s,
    cubic_approx_spline splitCubicAtT p n = Ok (Some s) /\
    Z.of_nat (length s) = n + 2 /\
    curve_spline_dist p s = Ok (of_int 0).
Proof.
  intros Hn.
  destruct (cubic_approx_spline_general splitCubicAtT p n) as
    (ts & ctrl & Hs & _); [lia|].
  eexists. split; [exact Hs|].
  pose proof (cubic_approx_spline_length splitCubicAtT split_length p n _
                ltac:(lia) Hs) as Hlen.
  split; [exact Hlen|].
  apply curve_spline_dist_no_samples. lia.
Qed.

(** With a tolerance [max_err] such that [0 <= max_err] the search always
    succeeds, at 21 segments at the latest. *)
Lemma curve_to_quadratic_succeeds (p : cubic) (max_err : num) :
  nle (of_int 0) max_err = true ->
  exists s e,
    curve_to_quadratic splitCubicAtT p max_err = Ok (Some s, Some e) /\
    Z.of_nat (length s) <= 23.
Proof.
  intros Htol. unfold curve_to_quadratic.
  rewrite (range_app 1 21 (MAX_N + 1)) by (unfold MAX_N; lia).
  rewrite for_break_app.
  destruct (for_break_total (curve_to_quadratic_body splitCubicAtT p max_err)
              (range 1 21) (None, None)) as (r & Hr).
  { intros n st Hn. apply range_In in Hn.
    apply curve_to_quadratic_body_runs. lia. }
  rewrite Hr. cbn [bind]. destruct r as [[sp er]|[sp er]].
  - rewrite range_cons by (unfold MAX_N; lia). cbn [for_break].
    unfold curve_to_quadratic_body at 1.
    destruct (candidate_21 p 21) as (s & Hs & Hlen & Hd); [lia|].
    rewrite Hs. cbn [bind]. rewrite Hd. cbn [bind]. rewrite Htol.
    cbn [bind].
    exists s, (of_int 0). split; [reflexivity|lia].
  - cbn [bind]. apply for_break_range_Break in Hr.
    destruct Hr as (n & s0 & Hn & Hbody & _).
    apply curve_to_quadratic_body_cases in Hbody.
    destruct Hbody as (s & e & -> & -> & Hs & _).
    exists s, e. split; [reflexivity|].
    pose proof (cubic_approx_spline_length splitCubicAtT split_length p n s
                  ltac:(lia) Hs). lia.
Qed.

End Search_theorems.

(** ** The batch search *)

Section Batch_properties.

Context {A : Arith}.
Variable splitCubicAtT : point -> point -> point -> point -> list num -> list cubic.

(** The constructor never raises, and a spline it returns is not empty. *)
Lemma cubic_approx_spline_total (p : cubic) (n : Z) :
  cubic_approx_spline splitCubicAtT p n = Ok None \/
  exists s, cubic_approx_spline splitCubicAtT p n = Ok (Some s) /\
            truthy (Some s) = true.
Proof.
  destruct (Z.eq_dec n 1) as [->|Hn1].
  - rewrite cubic_approx_spline_1. destruct (calc_intersect p); eauto.
  - destruct (cubic_approx_spline_general splitCubicAtT p n Hn1)
      as (ts & ctrl & E & _). eauto.
Qed.

Lemma candidates_total (curves : list cubic) (n : Z) :
  exists splines,
    comprehension (fun c => cubic_approx_spline splitCubicAtT c n) curves
    = Ok splines.
Proof.
  induction curves as [|c curves (splines & IH)]; simpl; [eauto|].
  destruct (cubic_approx_spline_total c n) as [->|(s & -> & _)];
    cbn [bind]; rewrite IH; cbn [bind]; eauto.
Qed.

(** A falsy element of the candidates is an absent spline. *)
Lemma falsy_candidate (curves : list cubic) (n : Z) splines :
  comprehension (fun c => cubic_approx_spline splitCubicAtT c n) curves
  = Ok splines ->
  forallb truthy splines = false ->
  exists c, In c curves /\ cubic_approx_spline splitCubicAtT c n = Ok None.
Proof.
  revert splines. induction curves as [|c curves IH]; simpl; intros splines H.
  - inversion H. discriminate.
  - destruct (cubic_approx_spline_total c n) as [E|(s & E & Ht)];
      rewrite E in H; cbn [bind] in H.
    + eauto.
    + destruct (comprehension _ curves) as [sps|]; cbn [bind] in H;
        [|discriminate].
      inversion H; subst. cbn [forallb]. rewrite Ht. cbn [andb].
      intros Hf. destruct (IH sps eq_refl Hf) as (c' & Hin & Hc'). eauto.
Qed.

Lemma absent_candidate_falsy (curves : list cubic) (n : Z) splines :
  comprehension (fun c => cubic_approx_spline splitCubicAtT c n) curves
  = Ok splines ->
  (exists c, In c curves /\ cubic_approx_spline splitCubicAtT c n = Ok None) ->
  forallb truthy splines = false.
Proof.
  revert splines. induction curves as [|c curves IH]; simpl;
    intros splines H (c' & Hin & Hc'); [contradiction|].
  destruct (cubic_approx_spline splitCubicAtT c n) as [sp|] eqn:E;
    cbn [bind] in H; [|discriminate].
  destruct (comprehension _ curves) as [sps|]; cbn [bind] in H;
    [|discriminate].
  inversion H; subst. cbn [forallb].
  destruct Hin as [->|Hin].
  - rewrite E in Hc'. inversion Hc'; subst. reflexivity.
  - rewrite (IH sps eq_refl) by eauto. apply andb_false_r.
Qed.

(** From the three steps of a successful iteration to [batch_result]. *)
Lemma batch_result_intro (n : Z) curves max_errors splines errors :
  length max_errors = length curves ->
  comprehension (fun c => cubic_approx_spline splitCubicAtT c n) curves
  = Ok splines ->
  spline_dists curves splines = Ok errors ->
  all_within (combine errors max_errors) = Ok true ->
  batch_result splitCubicAtT n curves max_errors splines errors.
Proof.
  revert max_errors splines errors.
  induction curves as [|c curves IH]; intros max_errors splines errors Hlen Hs He Hw.
  - destruct max_errors; [|discriminate]. simpl in Hs. inversion Hs; subst.
    unfold spline_dists in He. simpl in He. inversion He; subst. constructor.
  - destruct max_errors as [|m max_errors]; [discriminate|].
    simpl in Hs.
    destruct (cubic_approx_spline splitCubicAtT c n) as [sp|] eqn:E;
      cbn [bind] in Hs; [|discriminate].
    destruct (comprehension _ curves) as [sps|] eqn:Esps; cbn [bind] in Hs;
      [|discriminate].
    inversion Hs; subst. clear Hs.
    unfold spline_dists in He. simpl in He.
    destruct sp as [s|]; [|discriminate].
    destruct (curve_spline_dist c s) as [e|] eqn:Ed; cbn [bind] in He;
      [|discriminate].
    fold (spline_dists curves sps) in He.
    destruct (spline_dists curves sps) as [es|] eqn:Ees; cbn [bind] in He;
      [|discriminate].
    inversion He; subst. clear He.
    simpl in Hw. destruct (nle e m) eqn:Hle; [|discriminate].
    constructor; auto.
Qed.

Lemma batch_result_all_satisfy (n : Z) curves max_errors splines errors :
  batch_result splitCubicAtT n curves max_errors splines errors ->
  all_satisfy splitCubicAtT curves max_errors n.
Proof.
  induction 1; constructor; auto. exists s, e. auto.
Qed.

(** When every curve satisfies its tolerance, the computed errors pass
    the test. *)
Lemma all_satisfy_within (n : Z) curves max_errors splines errors :
  all_satisfy splitCubicAtT curves max_errors n ->
  comprehension (fun c => cubic_approx_spline splitCubicAtT c n) curves
  = Ok splines ->
  spline_dists curves splines = Ok errors ->
  forallb truthy splines = true ->
  all_within (combine errors max_errors) = Ok true.
Proof.
  intros Hall. revert splines errors.
  induction Hall as [|c m curves max_errors (s & e & Hs & Hd & Hle) _ IH];
    intros splines errors Hc He Ht.
  - simpl in Hc. inversion Hc; subst. unfold spline_dists in He. simpl in He.
    inversion He; subst. reflexivity.
  - simpl in Hc. rewrite Hs in Hc. cbn [bind] in Hc.
    destruct (comprehension _ curves) as [sps|] eqn:Esps; cbn [bind] in Hc;
      [|discriminate].
    inversion Hc; subst. clear Hc.
    unfold spline_dists in He. simpl in He. rewrite Hd in He.
    cbn [bind] in He. fold (spline_dists curves sps) in He.
    destruct (spline_dists curves sps) as [es|] eqn:Ees; cbn [bind] in He;
      [|discriminate].
    inversion He; subst. clear He.
    cbn [forallb] in Ht. apply andb_prop in Ht. destruct Ht as [_ Ht].
    simpl. rewrite Hle. apply (IH sps es); auto.
Qed.

Lemma all_satisfy_truthy (n : Z) curves max_errors splines :
  all_satisfy splitCubicAtT curves max_errors n ->
  comprehension (fun c => cubic_approx_spline splitCubicAtT c n) curves
  = Ok splines ->
  forallb truthy splines = true.
Proof.
  intros Hall Hc. destruct (forallb truthy splines) eqn:E; [reflexivity|].
  destruct (falsy_candidate curves n splines Hc E) as (c & Hin & Hnone).
  exfalso. clear Hc E. induction Hall as [|c' m ? ? (s & e & Hs & _) _ IH].
  - contradiction.
  - destruct Hin as [->|Hin]; [congruence|auto].
Qed.

(** What one iteration of the batch search does. *)
Lemma curves_to_quadratic_body_cases curves max_errors (n : Z) st r :
  length max_errors = length curves ->
  curves_to_quadratic_body splitCubicAtT curves max_errors n st = Ok r ->
  match r with
  | Break (splines, errors) =>
      batch_result splitCubicAtT n curves max_errors splines errors
  | Next _ => ~ all_satisfy splitCubicAtT curves max_errors n
  end.
Proof.
  intros Hlen. unfold curves_to_quadratic_body. destruct st as [sp0 er0].
  destruct (comprehension _ curves) as [splines|] eqn:Hc; cbn [bind];
    [|discriminate].
  destruct (forallb truthy splines) eqn:Ht; cbn [negb].
  - destruct (spline_dists curves splines) as [errors|] eqn:He; cbn [bind];
      [|discriminate].
    destruct (all_within _) as [[|]|] eqn:Hw; cbn [bind]; try discriminate;
      intros [= <-].
    + now apply batch_result_intro.
    + intros Hall.
      rewrite (all_satisfy_within n curves max_errors splines errors) in Hw;
        auto. discriminate.
  - intros [= <-] Hall.
    rewrite (all_satisfy_truthy n curves max_errors splines) in Ht; auto.
    discriminate.
Qed.

(** Short-circuit: when some curve has no candidate at [n], the iteration
    goes to the next [n] and leaves [errors] as it was. *)
Lemma curves_to_quadratic_body_skip curves max_errors (n : Z) st :
  (exists c, In c curves /\
             cubic_approx_spline splitCubicAtT c n = Ok None) ->
  exists splines,
    comprehension (fun c => cubic_approx_spline splitCubicAtT c n) curves
    = Ok splines /\
    curves_to_quadratic_body splitCubicAtT curves max_errors n st
    = Ok (Next (splines, snd st)).
Proof.
  intros Habs. destruct (candidates_total curves n) as (splines & Hc).
  exists splines. split; [exact Hc|].
  unfold curves_to_quadratic_body. destruct st as [sp0 er0].
  rewrite Hc. cbn [bind].
  now rewrite (absent_candidate_falsy curves n splines Hc Habs).
Qed.

End Batch_properties.

Section Batch_theorems.

Context {A : Arith}.
Variable splitCubicAtT : point -> point -> point -> point -> list num -> list cubic.

Hypothesis split_length : forall p0 p1 p2 p3 ts,
  length (splitCubicAtT p0 p1 p2 p3 ts) = S (length ts).

(** When all candidates are there, all errors are computed; with more than
    20 segments they are all [0]. *)
Lemma spline_dists_runs (n : Z) curves splines :
  1 <= n ->
  comprehension (fun c => cubic_approx_spline splitCubicAtT c n) curves
  = Ok splines ->
  forallb truthy splines = true ->
  exists es,
    spline_dists curves splines = Ok (map Some es) /\
    length es = length curves /\
    (21 <= n -> es = repeat (of_int 0) (length curves)) /\
    Forall2 (fun c sp => exists s,
               sp = Some s /\
               cubic_approx_spline splitCubicAtT c n = Ok (Some s))
      curves splines.
Proof.
  intros Hn. revert splines.
  induction curves as [|c curves IH]; simpl; intros splines Hc Ht.
  - inversion Hc; subst. exists []. repeat split; auto.
  - destruct (cubic_approx_spline splitCubicAtT c n) as [sp|] eqn:E;
      cbn [bind] in Hc; [|discriminate].
    destruct (comprehension _ curves) as [sps|] eqn:Esps; cbn [bind] in Hc;
      [|discriminate].
    inversion Hc; subst. clear Hc. cbn [forallb] in Ht.
    apply andb_prop in Ht. destruct Ht as [Ht1 Ht2].
    destruct sp as [s|]; [|discriminate].
    destruct (IH sps eq_refl Ht2) as (es & Hes & Hlen & H21 & Hall).
    destruct (candidate_dist_runs splitCubicAtT split_length c n s Hn E)
      as (e & He).
    exists (e :: es). unfold spline_dists in *. simpl. rewrite He.
    cbn [bind]. rewrite Hes. cbn [bind]. repeat split; auto.
    + intros Hbig. rewrite (H21 Hbig). f_equal.
      pose proof (cubic_approx_spline_length splitCubicAtT split_length
                    c n s Hn E) as Hl.
      rewrite curve_spline_dist_no_samples in He by lia. now inversion He.
    + constructor; eauto.
Qed.

Lemma all_within_runs (es max_errors : list num) :
  exists b, all_within (combine (map Some es) max_errors) = Ok b.
Proof.
  revert max_errors. induction es as [|e es IH]; intros [|m ms]; simpl; eauto.
  destruct (nle e m); eauto.
Qed.

Lemma all_within_zero (k : nat) (max_errors : list num) :
  length max_errors = k ->
  all_within (combine (map Some (repeat (of_int 0) k)) max_errors)
  = Ok (forallb (nle (of_int 0)) max_errors).
Proof.
  revert k. induction max_errors as [|m ms IH]; intros [|k] Hlen;
    try discriminate; simpl; [reflexivity|].
  destruct (nle (of_int 0) m); [|reflexivity]. apply IH. now inversion Hlen.
Qed.

(** An iteration of the batch search never raises. *)
Lemma curves_to_quadratic_body_runs curves max_errors (n : Z) st :
  1 <= n ->
  exists r,
    curves_to_quadratic_body splitCubicAtT curves max_errors n st = Ok r.
Proof.
  intros Hn. unfold curves_to_quadratic_body. destruct st as [sp0 er0].
  destruct (candidates_total splitCubicAtT curves n) as (splines & Hc).
  rewrite Hc. cbn [bind].
  destruct (forallb truthy splines) eqn:Ht; cbn [negb]; [|eauto].
  destruct (spline_dists_runs n curves splines Hn Hc Ht) as (es & -> & _).
  cbn [bind]. destruct (all_within_runs es max_errors) as ([|] & ->);
    cbn [bind]; eauto.
Qed.

(** An iteration with more than 20 segments: every candidate is there,
    every error is [0]. *)
Lemma curves_to_quadratic_body_unsampled curves max_errors (n : Z) st :
  21 <= n ->
  length max_errors = length curves ->
  exists splines,
    Forall2 (fun c sp => exists s,
               sp = Some s /\
               cubic_approx_spline splitCubicAtT c n = Ok (Some s))
      curves splines /\
    curves_to_quadratic_body splitCubicAtT curves max_errors n st =
    Ok (let st' := (splines,
                    map Some (repeat (of_int 0) (length curves))) in
        if forallb (nle (of_int 0)) max_errors then Break st'
        else Next st').
Proof.
  intros Hn Hlen. unfold curves_to_quadratic_body. destruct st as [sp0 er0].
  destruct (candidates_total splitCubicAtT curves n) as (splines & Hc).
  rewrite Hc. cbn [bind].
  assert (Ht : forallb truthy splines = true).
  { destruct (forallb truthy splines) eqn:E; [reflexivity|].
    destruct (falsy_candidate splitCubicAtT curves n splines Hc E)
      as (c & _ & Hnone).
    destruct (cubic_approx_spline_general splitCubicAtT c n) as
      (ts & ctrl & Hs & _); [lia|congruence]. }
  rewrite Ht. cbn [negb].
  destruct (spline_dists_runs n curves splines ltac:(lia) Hc Ht)
    as (es & -> & _ & Hes & Hall).
  rewrite (Hes Hn). cbn [bind]. rewrite all_within_zero by exact Hlen.
  cbn [bind]. exists splines. split; [exact Hall|].
  destruct (forallb _ max_errors); reflexivity.
Qed.

(** The [else] clause on a state in which every spline is there and every
    error is [0]: it raises for the first curve whose tolerance is below
    [0], if there is one. *)
Lemma raise_first_offending_zero curves max_errors splines :
  length max_errors = length curves ->
  Forall2 (fun (c : cubic) (sp : option (list point)) =>
             exists s, sp = Some s) curves splines ->
  let errors := map Some (repeat (of_int 0) (length curves)) in
  (Forall (fun m => ngt (of_int 0) m = false) max_errors /\
   raise_first_offending (zip4 curves splines errors max_errors) = Ok tt) \/
  (exists k c m,
     nth_error curves k = Some c /\ nth_error max_errors k = Some m /\
     ngt (of_int 0) m = true /\
     (forall j m', (j < k)%nat -> nth_error max_errors j = Some m' ->
                   ngt (of_int 0) m' = false) /\
     raise_first_offending (zip4 curves splines errors max_errors)
     = Raise (ApproxNotFoundError c (Some (of_int 0)))).
Proof.
  intros Hlen Hall. revert max_errors Hlen.
  induction Hall as [|c sp curves splines (s & ->) _ IH];
    intros [|m ms] Hlen; try discriminate.
  - left. split; [constructor|reflexivity].
  - unfold zip4. simpl. destruct (ngt (of_int 0) m) eqn:Hgt; cbn [bind].
    + right. exists 0%nat, c, m. repeat split; auto. intros j m' Hj. lia.
    + destruct (IH ms) as [(Hnone & Hr)|(k & c' & m' & Hc & Hm & Hg & Hb & Hr)];
        [now inversion Hlen| |].
      * left. split; [constructor; auto|exact Hr].
      * right. exists (S k), c', m'. repeat split; auto.
        intros [|j] m'' Hj Hm''; simpl in Hm''; [congruence|].
        apply (Hb j); [lia|assumption].
Qed.

(** A tolerance that [0] does not meet is one that [0] exceeds, when the
    tolerances can be compared with [0]. *)
Lemma unmet_tolerance_offends (max_errors : list num) :
  Forall comparable_with_zero max_errors ->
  forallb (nle (of_int 0)) max_errors = false ->
  ~ Forall (fun m => ngt (of_int 0) m = false) max_errors.
Proof.
  intros Hord. induction Hord as [|m ms Hm _ IH]; simpl; [discriminate|].
  intros Hf Hall. inversion Hall as [|? ? Hgt Hrest]; subst.
  destruct Hm as [Hle|Hgt']; [|congruence].
  rewrite Hle in Hf. simpl in Hf. exact (IH Hf Hrest).
Qed.

Lemma batch_result_shape (n : Z) curves max_errors splines errors :
  1 <= n ->
  batch_result splitCubicAtT n curves max_errors splines errors ->
  Forall (fun sp => exists s,
            sp = Some s /\ Z.of_nat (length s) = n + 2) splines.
Proof.
  intros Hn. induction 1 as [|c m s e ? ? ? ? Hs _ _ _ IH]; constructor; auto.
  exists s. split; [reflexivity|].
  now apply (cubic_approx_spline_length splitCubicAtT split_length c n s).
Qed.

(** X20.  For every list of cubics with per-curve tolerances comparable
    with [0], when [curves_to_quadratic] succeeds, all the splines it returns
    have the same segment count [n] (the same length [n + 2]); they are
    the candidates at [n] with their sampled errors, each within the
    curve's own tolerance; and [n] is the smallest value in [1..100] at
    which every curve has a candidate within its tolerance.  At an [n]
    where some curve yields no spline, the iteration goes to the next [n]
    with [errors] untouched: no error is computed for that [n]. *)
Theorem curves_to_quadratic_shared_n curves max_errors splines errors :
  Forall comparable_with_zero max_errors ->
  curves_to_quadratic splitCubicAtT curves max_errors = Ok (splines, errors) ->
  (exists n,
     1 <= n <= 100 /\
     Forall (fun sp => exists s,
               sp = Some s /\ Z.of_nat (length s) = n + 2) splines /\
     batch_result splitCubicAtT n curves max_errors splines errors /\
     all_satisfy splitCubicAtT curves max_errors n /\
     forall m, 1 <= m < n -> ~ all_satisfy splitCubicAtT curves max_errors m)
  /\
  (forall m st,
     (exists c, In c curves /\
                cubic_approx_spline splitCubicAtT c m = Ok None) ->
     exists splines_m,
       comprehension (fun c => cubic_approx_spline splitCubicAtT c m) curves
       = Ok splines_m /\
       curves_to_quadratic_body splitCubicAtT curves max_errors m st
       = Ok (Next (splines_m, snd st))).
Proof.
  intros Hord H. split; [|intros m st; apply curves_to_quadratic_body_skip].
  unfold curves_to_quadratic in H.
  destruct (Nat.eqb (length max_errors) (length curves)) eqn:Hlen;
    cbn [negb] in H; [|discriminate].
  apply Nat.eqb_eq in Hlen.
  destruct (for_break _ _ _) as [[[sp er]|[sp er]]|ex] eqn:E;
    cbn [bind] in H; try discriminate.
  - (* exhausted: the [else] clause would have raised *)
    exfalso.
    change (MAX_N + 1) with (100 + 1) in E.
    apply for_break_range_Next in E; [|lia]. destruct E as (s0 & Hbody).
    destruct (curves_to_quadratic_body_unsampled curves max_errors 100 s0)
      as (sps & Hall & Hb); [lia|exact Hlen|].
    rewrite Hb in Hbody. cbv zeta in Hbody.
    destruct (forallb (nle (of_int 0)) max_errors) eqn:Hf; [discriminate|].
    injection Hbody as Hsp Her. subst sp er.
    destruct (raise_first_offending_zero curves max_errors sps Hlen)
      as [(Hnone & _)|(k & c & m & _ & _ & _ & _ & Hr)].
    + eapply Forall2_impl; [|exact Hall]. intros c sp (s & -> & _). eauto.
    + now apply (unmet_tolerance_offends max_errors Hord Hf).
    + cbv zeta in Hr. rewrite Hr in H. discriminate.
  - inversion H; subst. clear H.
    apply for_break_range_Break in E.
    destruct E as (n & s0 & Hn & Hbody & Hbefore).
    apply curves_to_quadratic_body_cases in Hbody; [|exact Hlen].
    exists n. unfold MAX_N in Hn. repeat split; try lia.
    + apply (batch_result_shape n curves max_errors splines errors);
        [lia|exact Hbody].
    + exact Hbody.
    + eapply batch_result_all_satisfy; eauto.
    + intros m Hm. destruct (Hbefore m Hm) as (t & [sp' er'] & Hb).
      apply curves_to_quadratic_body_cases in Hb; [exact Hb|exact Hlen].
Qed.

(** X21.  For tolerances as many as the curves and comparable with [0]:
    when [curves_to_quadratic] exhausts the segment counts [1..100]
    without all curves satisfying their tolerances at any of them, it
    raises [ApproxNotFoundError] carrying the first offending curve in
    input order, a curve whose error at the last [n] exceeds its own
    tolerance, together with that last-measured error. *)
Theorem curves_to_quadratic_exhausted curves max_errors :
  length max_errors = length curves ->
  Forall comparable_with_zero max_errors ->
  (forall n, 1 <= n <= 100 ->
             ~ all_satisfy splitCubicAtT curves max_errors n) ->
  exists k c max_err s e,
    nth_error curves k = Some c /\
    nth_error max_errors k = Some max_err /\
    cubic_approx_spline splitCubicAtT c MAX_N = Ok (Some s) /\
    curve_spline_dist c s = Ok e /\
    ngt e max_err = true /\
    (forall j c' max_err' s' e',
       (j < k)%nat ->
       nth_error curves j = Some c' ->
       nth_error max_errors j = Some max_err' ->
       cubic_approx_spline splitCubicAtT c' MAX_N = Ok (Some s') ->
       curve_spline_dist c' s' = Ok e' ->
       ngt e' max_err' = false) /\
    curves_to_quadratic splitCubicAtT curves max_errors
    = Raise (ApproxNotFoundError c (Some e)).
Proof.
  intros Hlen Hord Hex. unfold curves_to_quadratic.
  rewrite Hlen, Nat.eqb_refl. cbn [negb].
  change (MAX_N + 1) with (100 + 1). rewrite range_snoc by lia.
  rewrite for_break_app.
  destruct (for_break_all_Next (fun _ => True)
              (curves_to_quadratic_body splitCubicAtT curves max_errors)
              (range 1 100)
              (repeat None (length curves), repeat None (length curves)) I)
    as (st & -> & _).
  { intros n t Hn _. apply range_In in Hn.
    destruct (curves_to_quadratic_body_runs curves max_errors n t)
      as ([t'|[sp er]] & Hb); [lia|eauto|].
    exfalso. apply (Hex n); [lia|].
    apply curves_to_quadratic_body_cases in Hb; [|exact Hlen].
    eapply batch_result_all_satisfy; eauto. }
  cbn [bind for_break].
  destruct (curves_to_quadratic_body_unsampled curves max_errors 100 st)
    as (sps & Hall & ->); [lia|exact Hlen|].
  cbv zeta.
  destruct (forallb (nle (of_int 0)) max_errors) eqn:Hf.
  { exfalso. apply (Hex 100); [lia|].
    destruct (curves_to_quadratic_body_unsampled curves max_errors 100 st)
      as (sps' & _ & Hb); [lia|exact Hlen|].
    cbv zeta in Hb. rewrite Hf in Hb.
    apply curves_to_quadratic_body_cases in Hb; [|exact Hlen].
    eapply batch_result_all_satisfy; eauto. }
  cbn [bind].
  assert (Hzero : forall j c s e,
            nth_error curves j = Some c ->
            cubic_approx_spline splitCubicAtT c MAX_N = Ok (Some s) ->
            curve_spline_dist c s = Ok e -> e = of_int 0).
  { intros j c s e _ Hs He.
    pose proof (cubic_approx_spline_length splitCubicAtT split_length
                  c MAX_N s ltac:(unfold MAX_N; lia) Hs) as Hl.
    unfold MAX_N in Hl.
    rewrite curve_spline_dist_no_samples in He by lia. now inversion He. }
  destruct (raise_first_offending_zero curves max_errors sps Hlen)
    as [(Hnone & _)|(k & c & m & Hc & Hm & Hgt & Hfirst & Hr)].
  - eapply Forall2_impl; [|exact Hall]. intros c sp (s & -> & _). eauto.
  - exfalso. now apply (unmet_tolerance_offends max_errors Hord Hf).
  - cbv zeta in Hr. rewrite Hr. cbn [bind].
    destruct (candidate_21 splitCubicAtT split_length c MAX_N)
      as (s & Hs & _ & Hd); [unfold MAX_N; lia|].
    exists k, c, m, s, (of_int 0). repeat split; auto.
    intros j c' m' s' e' Hj Hc' Hm' Hs' He'.
    rewrite (Hzero j c' s' e' Hc' Hs' He'). eapply Hfirst; eauto.
Qed.

End Batch_theorems.

(** ** Straight cubics, in exact arithmetic *)

Section Exact_arithmetic.

Context {A : Arith}.
Variable splitCubicAtT : point -> point -> point -> point -> list num -> list cubic.

Hypothesis split_length : forall p0 p1 p2 p3 ts,
  length (splitCubicAtT p0 p1 p2 p3 ts) = S (length ts).

(** The arithmetic is exact: the operations form a commutative ring, and
    zero passes the test for zero. *)
Hypothesis num_ring :
  ring_theory (of_int 0) (of_int 1) nadd nmul nsub nneg (@eq num).
Hypothesis is_zero_zero : is_zero (of_int 0) = true.

Add Ring num_ring_instance : num_ring.

(** The end tangents of a colinear cubic are parallel. *)
Lemma colinear_parallel_tangents (p : cubic) :
  colinear p -> parallel_tangents p = true.
Proof.
  intros (o & v & s0 & s1 & s2 & s3 & ->).
  destruct o as [ox oy], v as [vx vy].
  unfold parallel_tangents, dot, normal, vector, translate, scale,
    p_0, p_1, p_2, p_3. cbn [fst snd].
  match goal with
  | |- is_zero ?x = true => replace x with (of_int 0) by ring
  end.
  exact is_zero_zero.
Qed.

(** C5 (as amended).  For every straight-line-equivalent cubic (all four
    control points colinear), the constructor yields no spline at [n = 1],
    because the end tangents are parallel; the candidate with two segments
    exists and has exactly 4 points, and for every tolerance that is at
    least its sampled error [curve_to_quadratic] succeeds at [n = 2] and
    returns it. *)
Theorem colinear_cubic_two_segments (p : cubic) :
  colinear p ->
  cubic_approx_spline splitCubicAtT p 1 = Ok None /\
  exists s e,
    cubic_approx_spline splitCubicAtT p 2 = Ok (Some s) /\
    curve_spline_dist p s = Ok e /\
    length s = 4%nat /\
    forall max_err,
      nle e max_err = true ->
      curve_to_quadratic splitCubicAtT p max_err = Ok (Some s, Some e).
Proof.
  intros Hcol. apply colinear_parallel_tangents in Hcol.
  assert (H1 : cubic_approx_spline splitCubicAtT p 1 = Ok None).
  { rewrite cubic_approx_spline_1, calc_intersect_cases, Hcol. reflexivity. }
  split; [exact H1|].
  destruct (cubic_approx_spline_runs splitCubicAtT split_length p 2)
    as [Hnone|(s & Hs & Hlen)]; [lia| |].
  { destruct (cubic_approx_spline_general splitCubicAtT p 2) as
      (ts & ctrl & Hs & _); [lia|congruence]. }
  destruct (candidate_dist_runs splitCubicAtT split_length p 2 s) as (e & He);
    [lia|exact Hs|].
  exists s, e. repeat split; auto; [lia|].
  intros max_err Hle. unfold curve_to_quadratic.
  rewrite (range_cons 1) by (unfold MAX_N; lia).
  rewrite (range_cons (1 + 1)) by (unfold MAX_N; lia).
  rewrite for_break_cons, (curve_to_quadratic_body_absent _ p max_err 1 _ H1).
  rewrite bind_Ok, for_break_cons.
  rewrite (curve_to_quadratic_body_found _ p max_err (1 + 1) _ s e Hs He).
  rewrite Hle, !bind_Ok. reflexivity.
Qed.

(** Division undoes multiplication by a number that is not zero. *)
Hypothesis div_mul : forall x y,
  is_zero y = false -> nmul y (ndiv x y) = x.

(** The point [calc_intersect] returns is on the line through [a] and [b]
    (the vector from [a] to it is orthogonal to the normal of [ab]) and on
    the line through [c] and [d]: it is their intersection. *)
Lemma calc_intersect_meets_both_lines (a b c d r : point) :
  calc_intersect (a, b, c, d) = Ok r ->
  dot (normal (vector a b)) (vector a r) = of_int 0 /\
  exists h, r = translate c (scale (vector c d) h).
Proof.
  rewrite calc_intersect_cases.
  destruct (parallel_tangents (a, b, c, d)) eqn:Hpar; [discriminate|].
  cbv zeta. intros [= <-]. split; [|eauto].
  unfold parallel_tangents in Hpar.
  pose proof (div_mul (dot (normal (vector a b)) (vector c a)) _ Hpar) as Hh.
  revert Hh.
  generalize (ndiv (dot (normal (vector (p_0 (a, b, c, d)) (p_1 (a, b, c, d))))
                        (vector (p_2 (a, b, c, d)) (p_0 (a, b, c, d))))
                   (dot (normal (vector (p_0 (a, b, c, d)) (p_1 (a, b, c, d))))
                        (vector (p_2 (a, b, c, d)) (p_3 (a, b, c, d))))) as h.
  destruct a as [ax ay], b as [bx by_], c as [cx cy], d as [dx dy].
  unfold dot, normal, vector, translate, scale, p_0, p_1, p_2, p_3.
  cbn [fst snd]. intros h Hh.
  match goal with
  | |- ?lhs = _ =>
      match type of Hh with
      | ?l = ?r => replace lhs with (nsub l r) by ring
      end
  end.
  rewrite Hh. ring.
Qed.

End Exact_arithmetic.

(** ** The concrete arithmetic and subdivision meet the hypotheses *)

Lemma subdivide_length {A : Arith} (p0 p1 p2 p3 : point) (ts : list num) :
  length (subdivide p0 p1 p2 p3 ts) = S (length ts).
Proof.
  unfold subdivide. generalize (of_int 0) as t1.
  induction ts as [|t2 ts IH]; intros t1; simpl; [reflexivity|].
  now rewrite IH.
Qed.

(** The pieces of the subdivision start and end on the curve: on the
    diagonal the blossom is the evaluation of the cubic. *)
Lemma blossom_diagonal {A : Arith} (p : cubic) (t : num) :
  blossom p t t t = cubic_bezier_at p t.
Proof.
  destruct p as [[[[x1 y1] [x2 y2]] [x3 y3]] [x4 y4]]. reflexivity.
Qed.

Lemma Qc_ring :
  ring_theory (@of_int Qc_arith 0) (@of_int Qc_arith 1)
    (@nadd Qc_arith) (@nmul Qc_arith) (@nsub Qc_arith) (@nneg Qc_arith) eq.
Proof. exact Qcrt. Qed.

Lemma Qc_div_mul (x y : @num Qc_arith) :
  is_zero y = false -> nmul y (ndiv x y) = x.
Proof.
  intros Hy. apply Qcmult_div_r. intros ->. discriminate Hy.
Qed.

(** On the rationals the point [calc_intersect] returns is the
    intersection of the two lines. *)
Lemma Qc_calc_intersect_meets_both_lines (a b c d r : @point Qc_arith) :
  calc_intersect (a, b, c, d) = Ok r ->
  dot (normal (vector a b)) (vector a r) = of_int 0 /\
  exists h, r = translate c (scale (vector c d) h).
Proof.
  exact (calc_intersect_meets_both_lines Qc_ring Qc_div_mul a b c d r).
Qed.

Lemma Qc_comparable_with_zero (max_err : @num Qc_arith) :
  comparable_with_zero max_err.
Proof.
  unfold comparable_with_zero. cbn [nle ngt Qc_arith].
  destruct (Qle_bool _ _); [left|right]; reflexivity.
Qed.

Lemma Qc_point_eq (x y x' y' : Qc) :
  (x == x')%Q -> (y == y')%Q -> (x, y) = (x', y').
Proof. intros Hx Hy. f_equal; now apply Qc_is_canon. Qed.

Lemma straight_cubic_colinear : colinear straight_cubic.
Proof.
  exists (Qc_point 0 0), (Qc_point 1 0),
    (Q2Qc 0), (Q2Qc 1), (Q2Qc 2), (Q2Qc 3).
  unfold straight_cubic. repeat f_equal; apply Qc_point_eq; reflexivity.
Qed.

(** [satisfies] and its test agree. *)
Lemma within_tolerance_iff {A : Arith} split (p : cubic) (max_err : num) n :
  satisfies split p max_err n <-> within_tolerance split p max_err n = true.
Proof.
  unfold satisfies, within_tolerance, candidate_error. split.
  - intros (s & e & -> & He & Hle). cbn [bind]. rewrite He. exact Hle.
  - destruct (cubic_approx_spline split p n) as [[s|]|]; cbn [bind];
      try discriminate.
    destruct (curve_spline_dist p s) as [e|] eqn:He; cbn [bind];
      try discriminate.
    intros Hle. exists s, e. auto.
Qed.

(** ** The constructor's absent result, and the first satisfying [n] *)

(** C4.  For every cubic [p], [cubic_approx_spline(p, 1)] returns [None]
    exactly when the two end tangent lines (through [p0], [p1] and through
    [p2], [p3]) are parallel, that is when [dot((-ab.y, ab.x), cd)] is
    zero, and returns a three-point spline otherwise; for every [n >= 2]
    the constructor returns a spline.  In particular, for the cubic
    [[(0,0),(1,0),(2,0),(3,0)]] the constructor returns [None] at
    [n = 1]. *)
Theorem cubic_approx_spline_absent :
  (forall (A : Arith)
          (split : point -> point -> point -> point -> list num -> list cubic)
          (p : cubic),
     (cubic_approx_spline split p 1 = Ok None <->
      is_zero (dot (normal (vector (p_0 p) (p_1 p)))
                   (vector (p_2 p) (p_3 p))) = true) /\
     (cubic_approx_spline split p 1 = Ok None \/
      exists p1, cubic_approx_spline split p 1
                 = Ok (Some [p_0 p; p1; p_3 p])) /\
     (forall n, 2 <= n ->
                exists s, cubic_approx_spline split p n = Ok (Some s))) /\
  (forall split,
     cubic_approx_spline (A := Qc_arith) split straight_cubic 1 = Ok None).
Proof.
  split.
  - intros A split p.
    assert (H1 := cubic_approx_spline_1 split p).
    rewrite calc_intersect_cases in H1. fold (parallel_tangents p).
    split; [|split].
    + destruct (parallel_tangents p); cbv beta iota zeta in H1; rewrite H1;
        split; intros H; try reflexivity; discriminate.
    + destruct (parallel_tangents p); cbv beta iota zeta in H1; rewrite H1;
        eauto.
    + intros n Hn.
      destruct (cubic_approx_spline_general split p n) as (ts & ctrl & H & _);
        [lia|eauto].
  - intros split. rewrite cubic_approx_spline_1. reflexivity.
Qed.

Lemma cubic_approx_spline_absent_witness :
  2 <= 3 /\
  exists s, cubic_approx_spline (A := Qc_arith) subdivide hill_cubic 3
            = Ok (Some s).
Proof.
  split; [lia|].
  apply (proj1 cubic_approx_spline_absent Qc_arith subdivide hill_cubic).
  lia.
Defined.

(** C3.  When [curve_to_quadratic(p, max_err)] succeeds with a spline of
    [n] segments, [n] is the smallest integer in [1..100] for which
    [cubic_approx_spline(p, n)] yields a spline whose sampled error is
    [<= max_err]: the search returns at the first satisfying [n].  It is
    not the [n] of smallest error: there is a run whose returned error
    exceeds the error of a later candidate. *)
Theorem curve_to_quadratic_first_satisfying :
  (forall (A : Arith)
          (split : point -> point -> point -> point -> list num -> list cubic),
     (forall p0 p1 p2 p3 ts,
        length (split p0 p1 p2 p3 ts) = S (length ts)) ->
     forall (p : cubic) (max_err : num) s e,
       curve_to_quadratic split p max_err = Ok (Some s, Some e) ->
       exists n,
         1 <= n <= 100 /\
         Z.of_nat (length s) = n + 2 /\
         cubic_approx_spline split p n = Ok (Some s) /\
         curve_spline_dist p s = Ok e /\
         nle e max_err = true /\
         forall m, 1 <= m < n -> ~ satisfies split p max_err m) /\
  (exists (p : @cubic Qc_arith) max_err s e n' e',
     curve_to_quadratic subdivide p max_err = Ok (Some s, Some e) /\
     Z.of_nat (length s) < n' + 2 /\
     candidate_error subdivide p n' = Ok (Some e') /\
     nle e e' = false).
Proof.
  split.
  - intros A split Hsplit p max_err s e H.
    exact (curve_to_quadratic_smallest split Hsplit p max_err s e H).
  - exists hill_cubic, tenth, hill_run_spline,
      hill_run_error, 3,
      (candidate_error_value subdivide hill_cubic 3).
    repeat split; vm_compute; reflexivity.
Qed.

Lemma curve_to_quadratic_first_satisfying_witness :
  hill_run = Ok (Some hill_run_spline,
                 Some hill_run_error) /\
  exists n,
    1 <= n <= 100 /\
    Z.of_nat (length hill_run_spline) = n + 2 /\
    cubic_approx_spline subdivide hill_cubic n
    = Ok (Some hill_run_spline) /\
    curve_spline_dist hill_cubic hill_run_spline
    = Ok hill_run_error /\
    nle hill_run_error tenth = true /\
    forall m, 1 <= m < n -> ~ satisfies subdivide hill_cubic tenth m.
Proof.
  assert (H : hill_run = Ok (Some hill_run_spline,
                             Some hill_run_error))
    by (vm_compute; reflexivity).
  split; [exact H|].
  exact (proj1 curve_to_quadratic_first_satisfying Qc_arith subdivide
           (@subdivide_length Qc_arith) hill_cubic tenth _ _ H).
Defined.

(** ** Witnesses and counterexamples on concrete curves *)

Lemma curve_to_quadratic_within_tolerance_witness :
  hill_run = Ok (Some hill_run_spline,
                 Some hill_run_error) /\
  exists (s : list (@point Qc_arith)) (e : @num Qc_arith),
    Some hill_run_spline = Some s /\
    Some hill_run_error = Some e /\
    curve_spline_dist hill_cubic s = Ok e /\
    nle e tenth = true.
Proof.
  assert (H : hill_run = Ok (Some hill_run_spline,
                             Some hill_run_error))
    by (vm_compute; reflexivity).
  split; [exact H|].
  exact (curve_to_quadratic_within_tolerance subdivide hill_cubic tenth _ _ H).
Defined.

Lemma cubic_approx_spline_shape_witness :
  1 <= 3 /\
  cubic_approx_spline subdivide hill_cubic 3 = Ok (Some hill_spline_3) /\
  Z.of_nat (length hill_spline_3) = 3 + 2 /\
  getitem (A := Qc_arith) hill_spline_3 0 = Ok (p_0 hill_cubic) /\
  getitem (A := Qc_arith) hill_spline_3 (-1) = Ok (p_3 hill_cubic).
Proof.
  assert (H : cubic_approx_spline subdivide hill_cubic 3
              = Ok (Some hill_spline_3)) by (vm_compute; reflexivity).
  split; [lia|]. split; [exact H|].
  apply (cubic_approx_spline_shape subdivide (@subdivide_length Qc_arith)
           hill_cubic 3 hill_spline_3); [lia|exact H].
Defined.

Lemma curve_spline_dist_unsampled_witness :
  21 <= Z.of_nat (length far_spline) - 2 /\
  curve_spline_dist hill_cubic far_spline = Ok (of_int 0) /\
  (nle (of_int 0) tenth = true ->
   exists error,
     curve_spline_dist hill_cubic far_spline = Ok error /\
     nle error tenth = true).
Proof.
  assert (H : 21 <= Z.of_nat (length far_spline) - 2) by (vm_compute; discriminate).
  split; [exact H|].
  exact (proj2 (proj2 (curve_spline_dist_unsampled hill_cubic far_spline
                         tenth H))).
Defined.

(** C6, counterexample.  The lines through [(0,0)], [(1,0)] and through
    [(1,1)], [(1,2)] are not parallel and meet at [(1,0)], which is what
    [calc_intersect] returns; the point of the statement with
    [h = dot(p, c - a) / dot(p, cd)] is [(1,2)]. *)
Lemma calc_intersect_sign_counterexample :
  parallel_tangents crossing_lines = false /\
  calc_intersect crossing_lines = Ok (Qc_point 1 0) /\
  calc_intersect crossing_lines
  <> Ok (intersection_as_specified
           (Qc_point 0 0) (Qc_point 1 0) (Qc_point 1 1) (Qc_point 1 2)).
Proof.
  split; [reflexivity|]. split.
  - rewrite calc_intersect_cases.
    change (parallel_tangents crossing_lines) with false. cbv iota zeta.
    f_equal; try (apply Qc_point_eq; reflexivity).
  - intros H.
    apply (f_equal (fun r => match r with
                             | Ok pt => Some (point_coords pt)
                             | Raise _ => None
                             end)) in H.
    vm_compute in H. discriminate H.
Qed.

Lemma calc_intersect_value_witness :
  let a := Qc_point 0 0 in
  let b := Qc_point 1 0 in
  let c := Qc_point 1 1 in
  let d := Qc_point 1 2 in
  let ab := (nsub (fst b) (fst a), nsub (snd b) (snd a)) in
  let cd := (nsub (fst d) (fst c), nsub (snd d) (snd c)) in
  let p := (nneg (snd ab), fst ab) in
  let a_minus_c := (nsub (fst a) (fst c), nsub (snd a) (snd c)) in
  let h := ndiv (dot p a_minus_c) (dot p cd) in
  is_zero (dot p cd) = false /\
  calc_intersect (a, b, c, d) =
  Ok (nadd (fst c) (nmul (fst cd) h), nadd (snd c) (nmul (snd cd) h)).
Proof.
  intros a b c d ab cd p a_minus_c h.
  assert (H : is_zero (dot p cd) = false) by reflexivity.
  split; [exact H|]. exact (calc_intersect_value a b c d H).
Defined.

(** C5, counterexample.  The straight cubic [[(0,0),(1,0),(2,0),(3,0)]] is
    colinear, and with the generous tolerance [1000] the search does not
    succeed at [n = 1] with 3 points: there is no candidate at [n = 1], and
    the spline returned has 4 points. *)
Lemma straight_cubic_counterexample :
  colinear straight_cubic /\
  cubic_approx_spline subdivide straight_cubic 1 = Ok None /\
  returned_length straight_run = Some 4%nat /\
  ~ (exists s e, straight_run = Ok (Some s, Some e) /\ length s = 3%nat).
Proof.
  split; [exact straight_cubic_colinear|].
  split; [reflexivity|].
  assert (H : returned_length straight_run = Some 4%nat)
    by (vm_compute; reflexivity).
  split; [exact H|].
  intros (s & e & Hr & Hlen). rewrite Hr in H. simpl in H. congruence.
Qed.

Lemma colinear_cubic_two_segments_witness :
  colinear straight_cubic /\
  cubic_approx_spline subdivide straight_cubic 1 = Ok None /\
  exists s e,
    cubic_approx_spline subdivide straight_cubic 2 = Ok (Some s) /\
    curve_spline_dist straight_cubic s = Ok e /\
    length s = 4%nat /\
    forall max_err,
      nle e max_err = true ->
      curve_to_quadratic subdivide straight_cubic max_err
      = Ok (Some s, Some e).
Proof.
  split; [exact straight_cubic_colinear|].
  exact (colinear_cubic_two_segments subdivide (@subdivide_length Qc_arith)
           Qc_ring eq_refl straight_cubic straight_cubic_colinear).
Defined.

(** C7, the run of the code.  The arch [[(0,0),(0,1),(1,1),(1,0)]] is a
    true cubic: no candidate with up to 20 segments has sampled error [0].
    With [max_err = 0] the search nevertheless does not fail: it returns
    the candidate with 21 segments (23 points), whose error the sampler
    reports as [0] because it takes no sample. *)
Theorem arch_zero_tolerance_returns :
  exists s : list (@point Qc_arith),
    arch_run = Ok (Some s, Some (of_int 0)) /\
    length s = 23%nat /\
    cubic_approx_spline subdivide arch_cubic 21 = Ok (Some s) /\
    forall n, 1 <= n <= 20 -> ~ satisfies subdivide arch_cubic (of_int 0) n.
Proof.
  destruct (curve_to_quadratic_succeeds subdivide (@subdivide_length Qc_arith)
              arch_cubic (of_int 0) eq_refl) as (s & e & H & _).
  change (arch_run = Ok (Some s, Some e)) in H.
  assert (Hlen : returned_length arch_run = Some 23%nat)
    by (vm_compute; reflexivity).
  rewrite H in Hlen. simpl in Hlen. injection Hlen as Hlen.
  destruct (curve_to_quadratic_smallest subdivide (@subdivide_length Qc_arith)
              arch_cubic (of_int 0) s e H)
    as (n & Hn & Hn2 & Hs & Hd & _ & Hmin).
  assert (n = 21) by lia. subst n.
  rewrite curve_spline_dist_no_samples in Hd by lia.
  injection Hd as <-.
  exists s. repeat split; auto.
  intros m Hm. apply Hmin. lia.
Qed.

Lemma curves_to_quadratic_shared_n_witness :
  Forall comparable_with_zero [tenth; tenth] /\
  batch_run = Ok (batch_run_splines, batch_run_errors) /\
  exists n,
    1 <= n <= 100 /\
    Forall (fun sp => exists s : list (@point Qc_arith),
              sp = Some s /\ Z.of_nat (length s) = n + 2)
      batch_run_splines /\
    batch_result subdivide n [hill_cubic; straight_cubic] [tenth; tenth]
      batch_run_splines batch_run_errors /\
    all_satisfy subdivide [hill_cubic; straight_cubic] [tenth; tenth] n /\
    forall m, 1 <= m < n ->
      ~ all_satisfy subdivide [hill_cubic; straight_cubic] [tenth; tenth] m.
Proof.
  assert (Hord : Forall comparable_with_zero [tenth; tenth])
    by (repeat constructor; apply Qc_comparable_with_zero).
  assert (H : batch_run = Ok (batch_run_splines, batch_run_errors))
    by (vm_compute; reflexivity).
  split; [exact Hord|]. split; [exact H|].
  exact (proj1 (curves_to_quadratic_shared_n subdivide
                  (@subdivide_length Qc_arith)
                  [hill_cubic; straight_cubic] [tenth; tenth] _ _ Hord H)).
Defined.

Lemma hopeless_batch_exhausts (n : Z) :
  1 <= n <= 100 ->
  ~ all_satisfy subdivide hopeless_curves hopeless_tolerances n.
Proof.
  intros Hn Hall.
  assert (Hnone : forallb
            (fun n => negb (within_tolerance subdivide straight_cubic
                              minus_one n))
            (range 1 101) = true) by (vm_compute; reflexivity).
  rewrite forallb_forall in Hnone.
  specialize (Hnone n ltac:(apply range_In; lia)).
  inversion Hall as [|? ? ? ? _ Hrest]; subst.
  inversion Hrest as [|? ? ? ? Hsat _]; subst.
  apply within_tolerance_iff in Hsat. rewrite Hsat in Hnone. discriminate.
Qed.

Lemma curves_to_quadratic_exhausted_witness :
  length hopeless_tolerances = length hopeless_curves /\
  Forall comparable_with_zero hopeless_tolerances /\
  (forall n, 1 <= n <= 100 ->
             ~ all_satisfy subdivide hopeless_curves hopeless_tolerances n) /\
  exists k c max_err s e,
    nth_error hopeless_curves k = Some c /\
    nth_error hopeless_tolerances k = Some max_err /\
    cubic_approx_spline subdivide c MAX_N = Ok (Some s) /\
    curve_spline_dist c s = Ok e /\
    ngt e max_err = true /\
    (forall j c' max_err' s' e',
       (j < k)%nat ->
       nth_error hopeless_curves j = Some c' ->
       nth_error hopeless_tolerances j = Some max_err' ->
       cubic_approx_spline subdivide c' MAX_N = Ok (Some s') ->
       curve_spline_dist c' s' = Ok e' ->
       ngt e' max_err' = false) /\
    curves_to_quadratic subdivide hopeless_curves hopeless_tolerances
    = Raise (ApproxNotFoundError c (Some e)).
Proof.
  assert (Hord : Forall comparable_with_zero hopeless_tolerances)
    by (repeat constructor; apply Qc_comparable_with_zero).
  split; [reflexivity|]. split; [exact Hord|].
  split; [exact hopeless_batch_exhausts|].
  exact (curves_to_quadratic_exhausted subdivide (@subdivide_length Qc_arith)
           hopeless_curves hopeless_tolerances eq_refl Hord
           hopeless_batch_exhausts).
Defined.

(** ** A tolerance that is not a number

    In binary64 a tolerance can be NaN, for which both [error <= max_err]
    and [error > max_err] are false: no candidate is within it, and none
    exceeds it.  The two runs below do not depend on how the samples are
    rounded: the comparison with NaN is false whatever the error, and the
    candidates with 100 segments are not sampled at all. *)

Lemma nan_batch_exhausts (n : Z) :
  1 <= n <= 100 ->
  ~ all_satisfy subdivide [float_hill] [float_nan] n.
Proof.
  intros Hn Hall.
  assert (Hnone : forallb
            (fun n => negb (within_tolerance subdivide float_hill
                              float_nan n))
            (range 1 101) = true) by (vm_compute; reflexivity).
  rewrite forallb_forall in Hnone.
  specialize (Hnone n ltac:(apply range_In; lia)).
  inversion Hall as [|? ? ? ? Hsat _]; subst.
  apply within_tolerance_iff in Hsat. rewrite Hsat in Hnone. discriminate.
Qed.

Lemma mixed_batch_exhausts (n : Z) :
  1 <= n <= 100 ->
  ~ all_satisfy subdivide mixed_curves mixed_tolerances n.
Proof.
  intros Hn Hall.
  assert (Hnone : forallb
            (fun n => negb (within_tolerance subdivide float_arch
                              float_nan n))
            (range 1 101) = true) by (vm_compute; reflexivity).
  rewrite forallb_forall in Hnone.
  specialize (Hnone n ltac:(apply range_In; lia)).
  inversion Hall as [|? ? ? ? _ Hrest]; subst.
  inversion Hrest as [|? ? ? ? Hsat _]; subst.
  apply within_tolerance_iff in Hsat. rewrite Hsat in Hnone. discriminate.
Qed.

(** C8, the run of the code.  [curves_to_quadratic([hill, arch],
    [0.1, nan])] in binary64: the call returns, and the splines it returns
    are the candidates with [n = 100] segments (102 points each), although
    the curves are within their tolerances neither at [n = 100] nor at any
    other [n] of [1..100]: the returned [n] is not the smallest [n] at
    which every curve is within its own tolerance, there is no such [n].
    The [else] clause of the loop finds no curve with [error > max_err] and
    falls through to the [return]. *)
Theorem nan_tolerance_returns_unsatisfying :
  mixed_batch_run = Ok (mixed_batch_splines, mixed_batch_errors) /\
  comprehension (fun c => cubic_approx_spline subdivide c 100) mixed_curves
  = Ok mixed_batch_splines /\
  map (option_map (@length _)) mixed_batch_splines
  = [Some 102%nat; Some 102%nat] /\
  mixed_batch_errors = [Some (float_of_int 0); Some (float_of_int 0)] /\
  forall n, 1 <= n <= 100 ->
    ~ all_satisfy subdivide mixed_curves mixed_tolerances n.
Proof.
  assert (Hrun : mixed_batch_run
                 = Ok (mixed_batch_splines, mixed_batch_errors))
    by (vm_compute; reflexivity).
  assert (Hcand : comprehension
                    (fun c => cubic_approx_spline subdivide c 100)
                    mixed_curves
                  = Ok mixed_batch_splines)
    by (vm_compute; reflexivity).
  split; [exact Hrun|]. split; [exact Hcand|].
  split; [vm_compute; reflexivity|].
  split; [vm_compute; reflexivity|exact mixed_batch_exhausts].
Qed.

(** C9, the run of the code.  [curves_to_quadratic([hill], [nan])] in
    binary64: the segment counts [1..100] are exhausted without the curve
    satisfying its tolerance at any of them, and the call does not fail:
    it returns the candidate with 100 segments (102 points) and the error
    [0].  The single search on the same input,
    [curve_to_quadratic(hill, nan)], raises [ApproxNotFoundError]. *)
Theorem nan_tolerance_exhausted_not_raised :
  length [float_nan] = length [float_hill] /\
  (forall n, 1 <= n <= 100 ->
     ~ all_satisfy subdivide [float_hill] [float_nan] n) /\
  nan_batch_run = Ok (nan_batch_splines, nan_batch_errors) /\
  map (option_map (@length _)) nan_batch_splines = [Some 102%nat] /\
  nan_batch_errors = [Some (float_of_int 0)] /\
  nan_single_run
  = Raise (ApproxNotFoundError float_hill (Some (float_of_int 0))).
Proof.
  split; [reflexivity|]. split; [exact nan_batch_exhausts|].
  split; [vm_compute; reflexivity|].
  split; [vm_compute; reflexivity|].
  split; vm_compute; reflexivity.
Qed.

(* ================================================================= *)
(** * Part V: further properties of the module *)
(* ================================================================= *)

(** ** Loops, once more *)

Section More_loops.

Context {A : Arith}.

(** A loop over a range that ends without [break] went to the next
    iteration at every element. *)
Lemma for_break_range_exhausted {S : Type}
    (body : Z -> S -> result num (flow S)) (lo hi : Z) s s' :
  for_break (range lo hi) s body = Ok (Next s') ->
  forall m, lo <= m < hi -> exists t t', body m t = Ok (Next t').
Proof.
  remember (Z.to_nat (hi - lo)) as len eqn:Hlen.
  revert lo s Hlen. induction len as [|len IH]; intros lo s Hlen H m Hm.
  - lia.
  - rewrite range_cons in H by lia. rewrite for_break_cons in H.
    destruct (body lo s) as [[t|t]|e] eqn:E; cbn [bind] in H;
      try discriminate.
    destruct (Z.eq_dec m lo) as [->|Hne]; [eauto|].
    apply (IH (lo + 1) t); [lia|exact H|lia].
Qed.

(** The first and the last element of a list with both. *)
Lemma getitem_ends {T : Type} (a d : T) (mid : list T) :
  getitem (a :: mid ++ [d]) 0 = Ok a /\
  getitem (a :: mid ++ [d]) (-1) = Ok d.
Proof.
  split; [reflexivity|].
  unfold getitem. cbn [Z.ltb Z.compare].
  set (l := a :: mid ++ [d]).
  assert (Hl : length l = S (S (length mid)))
    by (unfold l; simpl; rewrite length_app; simpl; lia).
  destruct (-1 + Z.of_nat (length l) <? 0) eqn:E; [lia|].
  replace (Z.to_nat (-1 + Z.of_nat (length l))) with (S (length mid)) by lia.
  unfold l. simpl. rewrite nth_error_app2 by lia.
  now rewrite Nat.sub_diag.
Qed.

End More_loops.

(** ** The constructor and the sampler at the edges *)

Section Edges.

Context {A : Arith}.
Variable splitCubicAtT : point -> point -> point -> point -> list num -> list cubic.

Hypothesis split_length : forall p0 p1 p2 p3 ts,
  length (splitCubicAtT p0 p1 p2 p3 ts) = S (length ts).

(** X1.  [cubic_approx_spline(p, n)] raises for no integer [n]: it returns
    [None] (possible at [n = 1] only) or a spline from [p[0]] to [p[3]]
    with [max(n, 1) + 2] points; for [n <= 0] that is the three points of a
    single segment. *)
Theorem cubic_approx_spline_any_n (p : cubic) (n : Z) :
  (n = 1 /\ cubic_approx_spline splitCubicAtT p n = Ok None) \/
  exists ctrl,
    cubic_approx_spline splitCubicAtT p n
    = Ok (Some (p_0 p :: ctrl ++ [p_3 p])) /\
    Z.of_nat (length ctrl) = Z.max n 1.
Proof.
  destruct (Z.eq_dec n 1) as [->|Hn1].
  - rewrite cubic_approx_spline_1.
    destruct (calc_intersect p) as [p1|e]; [right|left; auto].
    exists [p1]. split; reflexivity.
  - right.
    destruct (cubic_approx_spline_general splitCubicAtT p n Hn1)
      as (ts & ctrl & E & Hts & Hctrl).
    exists ctrl. split; [exact E|].
    rewrite Hctrl, split_length, Hts. lia.
Qed.

End Edges.

Section Sampler_edges.

Context {A : Arith}.

(** X2.  [curve_spline_dist] by the number of points of the spline: with
    fewer than two points there is no segment and the result is [0]; with
    exactly two points [n] is [0] and [20 // n] raises
    [ZeroDivisionError]; with three points or more it returns a number. *)
Theorem curve_spline_dist_by_length (bezier : cubic) (spline : list point) :
  ((length spline < 2)%nat ->
   curve_spline_dist bezier spline = Ok (of_int 0)) /\
  (length spline = 2%nat ->
   curve_spline_dist bezier spline = Raise ZeroDivisionError) /\
  ((3 <= length spline)%nat ->
   exists error, curve_spline_dist bezier spline = Ok error).
Proof.
  split; [|split].
  - destruct spline as [|a [|b l]]; simpl; intros H; try reflexivity; lia.
  - destruct spline as [|a [|b [|c l]]]; simpl; intros H;
      try discriminate. reflexivity.
  - intros H.
    destruct (curve_spline_dist_runs bezier spline (fun _ => True))
      as (e & He & _); auto; [lia|eauto].
Qed.

(** The loops of the sampler: every value [max] is taken with is a
    distance between two points. *)
Lemma sample_loop_dist (bezier : cubic) (segment : quadratic) (i n steps : Z)
    (P : num -> Prop) (error : num) :
  n <> 0 ->
  P error ->
  (forall e p1 p2, P e -> P (py_max e (dist p1 p2))) ->
  exists error',
    for_each (range 0 steps) error
      (fun j error =>
         u <- truediv_int (of_int j) steps ;;
         t <- truediv_int (nsub (nadd u (of_int i)) (of_int 1)) n ;;
         v <- truediv_int (of_int j) steps ;;
         Ok (py_max error (dist (cubic_bezier_at bezier t)
                                (quadratic_bezier_at segment v))))
    = Ok error' /\
    P error'.
Proof.
  intros Hn H0 Hmax. apply for_each_total; [exact H0|].
  intros j e Hj He. apply range_In in Hj.
  unfold truediv_int.
  destruct (steps =? 0) eqn:E; [lia|]. destruct (n =? 0) eqn:E'; [lia|].
  cbn [bind]. eexists. split; [reflexivity|]. apply Hmax. exact He.
Qed.

Lemma curve_spline_dist_runs_dist (bezier : cubic) (spline : list point)
    (P : num -> Prop) :
  let n := Z.of_nat (length spline) - 2 in
  1 <= n ->
  P (of_int 0) ->
  (forall e p1 p2, P e -> P (py_max e (dist p1 p2))) ->
  exists error, curve_spline_dist bezier spline = Ok error /\ P error.
Proof.
  intros n Hn H0 Hmax. unfold curve_spline_dist. fold n.
  unfold floordiv. destruct (n =? 0) eqn:E; [lia|]. cbn [bind].
  set (steps := TOTAL_STEPS / n) in *.
  match goal with
  | |- exists error, bind (for_each _ _ ?body) _ = Ok error /\ _ =>
      set (b := body);
      assert (Hstep : forall i e seg,
                1 <= i <= n -> (i = 1 \/ seg <> None) -> P e ->
                exists e' seg', b i (e, seg) = Ok (e', Some seg') /\ P e')
  end.
  { intros i e seg Hi Hseg He. unfold b.
    destruct (getitem_in_range spline i) as (x1 & E1); [lia|].
    destruct (getitem_in_range spline (i + 1)) as (x2 & E2); [lia|].
    destruct (getitem_in_range spline 0) as (x0 & E0); [lia|].
    assert (Hs0 : exists s0,
              (if i =? 1 then getitem spline 0
               else match seg with
                    | Some (_, _, segment_2) => Ok segment_2
                    | None => Raise UnboundLocalError
                    end) = Ok s0).
    { destruct (i =? 1) eqn:Ei; [eauto|].
      destruct seg as [[[? ?] s2]|]; [eauto|].
      destruct Hseg; [lia|congruence]. }
    destruct Hs0 as (s0 & ->). rewrite E1, E2. cbn [bind].
    assert (Hs2 : exists s2,
              (if i =? n then Ok x2 else Ok (lerp_pt x1 x2 lit_0_5))
              = Ok (N := num) s2) by (destruct (i =? n); eauto).
    destruct Hs2 as (s2 & ->). cbn [bind].
    destruct (sample_loop_dist bezier (s0, x1, s2) i n steps P e) as (e' & -> & He');
      auto; [lia|].
    cbn [bind]. eauto. }
  clearbody b.
  assert (Hloop : forall is_ e seg,
            (forall i, In i is_ -> 1 <= i <= n) ->
            (seg <> None \/ exists is', is_ = 1 :: is' /\ ~ In 1 is') ->
            P e ->
            exists e' seg', for_each is_ (e, seg) b = Ok (e', seg') /\ P e').
  { induction is_ as [|i is_ IH]; intros e seg Hin Hseg He.
    - simpl. eauto.
    - cbn [for_each].
      destruct (Hstep i e seg) as (e1 & seg1 & -> & He1); auto.
      + apply Hin. now left.
      + destruct Hseg as [?|(is' & [= -> _] & _)]; auto.
      + cbn [bind]. apply IH; auto.
        * intros j Hj. apply Hin. now right.
        * left. discriminate. }
  destruct (Hloop (range 1 (n + 1)) (of_int 0) None) as (e & seg & -> & He);
    auto.
  - intros i Hi. apply range_In in Hi. lia.
  - right. exists (range 2 (n + 1)). split.
    + now rewrite range_cons by lia.
    + rewrite range_In. lia.
  - cbn [bind]. eauto.
Qed.

(** The sampled error is [0] or came out of [math.hypot]: it has every
    property that [0] and the values of [hypot] have. *)
Lemma curve_spline_dist_value (bezier : cubic) (spline : list point)
    (P : num -> Prop) (error : num) :
  P (of_int 0) ->
  (forall x y, P (hypot x y)) ->
  curve_spline_dist bezier spline = Ok error ->
  P error.
Proof.
  intros H0 Hh He.
  destruct (Nat.lt_ge_cases (length spline) 3) as [Hlt|Hge].
  - destruct spline as [|a [|b [|c l]]]; simpl in Hlt; try lia;
      simpl in He; try discriminate; now inversion He.
  - destruct (curve_spline_dist_runs_dist bezier spline P) as (e & He' & HP);
      auto; [lia| |congruence].
    intros e p1 p2 Pe. unfold py_max, dist.
    destruct (ngt _ _); [apply Hh|exact Pe].
Qed.

(** X3.  The sampled error is never negative: when [0 <= 0] and
    [0 <= hypot(x, y)] for all [x], [y], every result [error] of
    [curve_spline_dist] has [0 <= error]. *)
Theorem curve_spline_dist_nonnegative (bezier : cubic) (spline : list point)
    (error : num) :
  nle (of_int 0) (of_int 0) = true ->
  (forall x y, nle (of_int 0) (hypot x y) = true) ->
  curve_spline_dist bezier spline = Ok error ->
  nle (of_int 0) error = true.
Proof.
  intros H0 Hh He.
  exact (curve_spline_dist_value bezier spline
           (fun e => nle (of_int 0) e = true) error H0 Hh He).
Qed.

End Sampler_edges.

(** ** The single-curve search, from the caller's side *)

Section Search_outcomes.

Context {A : Arith}.
Variable splitCubicAtT : point -> point -> point -> point -> list num -> list cubic.

Hypothesis split_length : forall p0 p1 p2 p3 ts,
  length (splitCubicAtT p0 p1 p2 p3 ts) = S (length ts).

(** When some [n] of the range satisfies the tolerance, the search
    succeeds, at that [n] or before. *)
Lemma curve_to_quadratic_complete (p : cubic) (max_err : num) (n : Z) :
  1 <= n <= 100 ->
  satisfies splitCubicAtT p max_err n ->
  exists s e n',
    1 <= n' <= n /\
    curve_to_quadratic splitCubicAtT p max_err = Ok (Some s, Some e) /\
    cubic_approx_spline splitCubicAtT p n' = Ok (Some s) /\
    curve_spline_dist p s = Ok e /\
    nle e max_err = true.
Proof.
  intros Hn (s & e & Hs & Hd & Hle). unfold curve_to_quadratic.
  rewrite (range_app 1 n (MAX_N + 1)) by (unfold MAX_N; lia).
  rewrite for_break_app.
  destruct (for_break_total
              (curve_to_quadratic_body splitCubicAtT p max_err)
              (range 1 n) (None, None)) as (r & Hr).
  { intros m st Hm. apply range_In in Hm.
    apply (curve_to_quadratic_body_runs splitCubicAtT split_length). lia. }
  rewrite Hr, bind_Ok. destruct r as [st|[sp er]].
  - rewrite range_cons by (unfold MAX_N; lia). rewrite for_break_cons.
    rewrite (curve_to_quadratic_body_found _ p max_err n st s e Hs Hd).
    rewrite Hle, !bind_Ok. exists s, e, n. repeat split; auto; lia.
  - rewrite bind_Ok. apply for_break_range_Break in Hr.
    destruct Hr as (n' & s0 & Hn' & Hbody & _).
    apply curve_to_quadratic_body_cases in Hbody.
    destruct Hbody as (s' & e' & -> & -> & Hs' & Hd' & Hle').
    exists s', e', n'. repeat split; auto; lia.
Qed.

(** When no [n] of the range satisfies the tolerance, the search raises
    [ApproxNotFoundError] with the curve and the error of the last
    candidate, which is [0]. *)
Lemma curve_to_quadratic_fails (p : cubic) (max_err : num) :
  (forall n, 1 <= n <= 100 -> ~ satisfies splitCubicAtT p max_err n) ->
  curve_to_quadratic splitCubicAtT p max_err
  = Raise (ApproxNotFoundError p (Some (of_int 0))) /\
  nle (of_int 0) max_err = false.
Proof.
  intros Hnone.
  destruct (candidate_21 splitCubicAtT split_length p 100)
    as (s & Hs & _ & Hd); [lia|].
  assert (Hle : nle (of_int 0) max_err = false).
  { destruct (nle (of_int 0) max_err) eqn:E; [|reflexivity].
    exfalso. apply (Hnone 100); [lia|]. exists s, (of_int 0). auto. }
  split; [|exact Hle]. unfold curve_to_quadratic.
  change (MAX_N + 1) with (100 + 1). rewrite range_snoc by lia.
  rewrite for_break_app.
  destruct (for_break_all_Next (fun _ => True)
              (curve_to_quadratic_body splitCubicAtT p max_err)
              (range 1 100) (None, None) I) as (st & -> & _).
  { intros n t Hn _. apply range_In in Hn.
    destruct (curve_to_quadratic_body_runs splitCubicAtT split_length
                p max_err n t) as ([t'|[sp er]] & Hb); [lia|eauto|].
    exfalso. apply (Hnone n); [lia|].
    apply curve_to_quadratic_body_cases in Hb.
    destruct Hb as (s' & e' & _ & _ & Hs' & Hd' & Hle'). exists s', e'. auto. }
  rewrite bind_Ok, for_break_cons.
  rewrite (curve_to_quadratic_body_found _ p max_err 100 st s _ Hs Hd).
  rewrite Hle, !bind_Ok. reflexivity.
Qed.

(** [satisfies] can be decided. *)
Lemma satisfies_dec (p : cubic) (max_err : num) (n : Z) :
  satisfies splitCubicAtT p max_err n \/
  ~ satisfies splitCubicAtT p max_err n.
Proof.
  unfold satisfies.
  destruct (cubic_approx_spline splitCubicAtT p n) as [[s|]|ex] eqn:Hs.
  - destruct (curve_spline_dist p s) as [e|ex] eqn:Hd.
    + destruct (nle e max_err) eqn:Hle.
      * left. exists s, e. auto.
      * right. intros (s' & e' & [= <-] & Hd' & Hle'). congruence.
    + right. intros (s' & e' & [= <-] & Hd' & _). congruence.
  - right. intros (s' & e' & Hs' & _). discriminate.
  - right. intros (s' & e' & Hs' & _). discriminate.
Qed.

Lemma satisfies_somewhere_dec (p : cubic) (max_err : num) (hi : Z) :
  (exists n, 1 <= n <= hi /\ satisfies splitCubicAtT p max_err n) \/
  (forall n, 1 <= n <= hi -> ~ satisfies splitCubicAtT p max_err n).
Proof.
  destruct (Z.le_gt_cases hi 0) as [Hle|Hgt]; [right; intros n Hn; lia|].
  rewrite <- (Z2Nat.id hi) by lia.
  induction (Z.to_nat hi) as [|k IH].
  - right. intros n Hn. lia.
  - destruct IH as [(n & Hn & Hsat)|Hnone].
    + left. exists n. split; [lia|exact Hsat].
    + destruct (satisfies_dec p max_err (Z.of_nat (S k))) as [Hsat|Hnot].
      * left. exists (Z.of_nat (S k)). split; [lia|exact Hsat].
      * right. intros n Hn.
        destruct (Z.eq_dec n (Z.of_nat (S k))) as [->|Hne]; [exact Hnot|].
        apply Hnone. lia.
Qed.

(** X4.  The two outcomes of [curve_to_quadratic]: it returns the
    candidate of the smallest [n] in [1..100] that satisfies the
    tolerance, or, when no such [n] exists, raises [ApproxNotFoundError]
    carrying the input curve and the error [0] of the last candidate;
    this happens only for a tolerance that [0] does not meet.  No other
    exception escapes. *)
Theorem curve_to_quadratic_outcomes (p : cubic) (max_err : num) :
  (exists s e n,
     curve_to_quadratic splitCubicAtT p max_err = Ok (Some s, Some e) /\
     1 <= n <= 100 /\
     cubic_approx_spline splitCubicAtT p n = Ok (Some s) /\
     curve_spline_dist p s = Ok e /\
     nle e max_err = true /\
     forall m, 1 <= m < n -> ~ satisfies splitCubicAtT p max_err m) \/
  (curve_to_quadratic splitCubicAtT p max_err
   = Raise (ApproxNotFoundError p (Some (of_int 0))) /\
   nle (of_int 0) max_err = false /\
   forall n, 1 <= n <= 100 -> ~ satisfies splitCubicAtT p max_err n).
Proof.
  destruct (satisfies_somewhere_dec p max_err 100) as [(n & Hn & Hsat)|Hnone].
  - left.
    destruct (curve_to_quadratic_complete p max_err n Hn Hsat)
      as (s & e & n' & Hn' & H & _).
    destruct (curve_to_quadratic_first splitCubicAtT p max_err _ _ H)
      as (n0 & s0 & e0 & Hn0 & [= <-] & [= <-] & Hs & Hd & Hle & Hmin).
    exists s, e, n0. unfold MAX_N in Hn0. repeat split; auto; lia.
  - right. destruct (curve_to_quadratic_fails p max_err Hnone) as (H & Hle).
    auto.
Qed.

(** X5.  With a tolerance that [0] meets ([0 <= max_err]) the search
    always returns: a spline of [n + 2] points for some [n] from 1 to 21,
    which starts at [p[0]] and ends at [p[3]], with an error within the
    tolerance. *)
Theorem curve_to_quadratic_nonnegative_tolerance (p : cubic) (max_err : num) :
  nle (of_int 0) max_err = true ->
  exists s e n,
    curve_to_quadratic splitCubicAtT p max_err = Ok (Some s, Some e) /\
    1 <= n <= 21 /\
    Z.of_nat (length s) = n + 2 /\
    getitem s 0 = Ok (p_0 p) /\
    getitem s (-1) = Ok (p_3 p) /\
    nle e max_err = true.
Proof.
  intros Htol.
  destruct (candidate_21 splitCubicAtT split_length p 21)
    as (s21 & Hs21 & _ & Hd21); [lia|].
  destruct (curve_to_quadratic_complete p max_err 21) as
    (s & e & n & Hn & H & Hs & Hd & Hle); [lia| |].
  { exists s21, (of_int 0). auto. }
  destruct (cubic_approx_spline_structure splitCubicAtT split_length p n s)
    as (ctrl & -> & Hlen); [lia|exact Hs|].
  destruct (getitem_ends (p_0 p) (p_3 p) ctrl) as (H0 & H3).
  exists (p_0 p :: ctrl ++ [p_3 p]), e, n. repeat split; auto; try lia.
  simpl. rewrite length_app. simpl. lia.
Qed.

(** X6.  A more generous tolerance never needs more segments: when the
    search succeeds for [max_err], and every error within [max_err] is
    within [max_err'], the search succeeds for [max_err'] with a spline
    that has no more points. *)
Theorem curve_to_quadratic_monotone (p : cubic) (max_err max_err' : num) s e :
  (forall x, nle x max_err = true -> nle x max_err' = true) ->
  curve_to_quadratic splitCubicAtT p max_err = Ok (Some s, Some e) ->
  exists s' e',
    curve_to_quadratic splitCubicAtT p max_err' = Ok (Some s', Some e') /\
    (length s' <= length s)%nat.
Proof.
  intros Hgen H.
  destruct (curve_to_quadratic_smallest splitCubicAtT split_length
              p max_err s e H) as (n & Hn & Hlen & Hs & Hd & Hle & _).
  destruct (curve_to_quadratic_complete p max_err' n Hn) as
    (s' & e' & n' & Hn' & H' & Hs' & _).
  { exists s, e. auto. }
  exists s', e'. split; [exact H'|].
  pose proof (cubic_approx_spline_length splitCubicAtT split_length
                p n' s' ltac:(lia) Hs'). lia.
Qed.

(** X18.  A tolerance below every possible error always fails: when [0]
    and the values of [hypot] are not negative and no such number is
    within [max_err], [curve_to_quadratic] raises [ApproxNotFoundError]
    with the input curve and the error [0], whatever the curve. *)
Theorem curve_to_quadratic_negative_tolerance (p : cubic) (max_err : num) :
  nle (of_int 0) (of_int 0) = true ->
  (forall x y, nle (of_int 0) (hypot x y) = true) ->
  (forall e, nle (of_int 0) e = true -> nle e max_err = false) ->
  curve_to_quadratic splitCubicAtT p max_err
  = Raise (ApproxNotFoundError p (Some (of_int 0))).
Proof.
  intros H0 Hh Hneg.
  apply curve_to_quadratic_fails.
  intros n _ (s & e & _ & Hd & Hle).
  pose proof (curve_spline_dist_value p s
                (fun x => nle (of_int 0) x = true) e H0 Hh Hd) as Hpos.
  rewrite (Hneg e Hpos) in Hle. discriminate.
Qed.

End Search_outcomes.

(** ** The batch search, from the caller's side *)

Section Batch_outcomes.

Context {A : Arith}.
Variable splitCubicAtT : point -> point -> point -> point -> list num -> list cubic.

Hypothesis split_length : forall p0 p1 p2 p3 ts,
  length (splitCubicAtT p0 p1 p2 p3 ts) = S (length ts).

Lemma batch_result_same_length (n : Z) curves max_errors splines errors :
  batch_result splitCubicAtT n curves max_errors splines errors ->
  length splines = length curves /\ length errors = length curves.
Proof.
  induction 1 as [|? ? ? ? ? ? ? ? ? ? ? ? [IH1 IH2]]; simpl; auto.
Qed.

(** At an [n] where every curve satisfies its tolerance the iteration
    breaks. *)
Lemma curves_to_quadratic_body_Break curves max_errors (n : Z) st :
  1 <= n ->
  all_satisfy splitCubicAtT curves max_errors n ->
  exists splines errors,
    curves_to_quadratic_body splitCubicAtT curves max_errors n st
    = Ok (Break (splines, errors)).
Proof.
  intros Hn Hall. unfold curves_to_quadratic_body. destruct st as [sp0 er0].
  destruct (candidates_total splitCubicAtT curves n) as (splines & Hc).
  rewrite Hc, bind_Ok.
  pose proof (all_satisfy_truthy splitCubicAtT n curves max_errors splines
                Hall Hc) as Ht.
  rewrite Ht. cbn [negb].
  destruct (spline_dists_runs splitCubicAtT split_length n curves splines
              Hn Hc Ht) as (es & He & _).
  rewrite He, bind_Ok.
  rewrite (all_satisfy_within splitCubicAtT n curves max_errors splines
             (map Some es) Hall Hc He Ht), bind_Ok.
  eauto.
Qed.

(** When some [n] of the range satisfies every tolerance, the batch search
    succeeds, at that [n] or before. *)
Lemma curves_to_quadratic_complete curves max_errors (n : Z) :
  length max_errors = length curves ->
  1 <= n <= 100 ->
  all_satisfy splitCubicAtT curves max_errors n ->
  exists splines errors n',
    1 <= n' <= n /\
    curves_to_quadratic splitCubicAtT curves max_errors
    = Ok (splines, errors) /\
    batch_result splitCubicAtT n' curves max_errors splines errors /\
    forall m, 1 <= m < n' ->
      ~ all_satisfy splitCubicAtT curves max_errors m.
Proof.
  intros Hlen Hn Hall. unfold curves_to_quadratic.
  rewrite Hlen, Nat.eqb_refl. cbn [negb].
  rewrite (range_app 1 n (MAX_N + 1)) by (unfold MAX_N; lia).
  rewrite for_break_app.
  destruct (for_break_total
              (curves_to_quadratic_body splitCubicAtT curves max_errors)
              (range 1 n)
              (repeat None (length curves), repeat None (length curves)))
    as (r & Hr).
  { intros m st Hm. apply range_In in Hm.
    apply (curves_to_quadratic_body_runs splitCubicAtT split_length). lia. }
  rewrite Hr, bind_Ok. destruct r as [st|[sp er]].
  - rewrite range_cons by (unfold MAX_N; lia). rewrite for_break_cons.
    destruct (curves_to_quadratic_body_Break curves max_errors n st)
      as (splines & errors & Hb); [lia|exact Hall|].
    rewrite Hb, !bind_Ok. exists splines, errors, n.
    repeat split; try lia.
    + apply curves_to_quadratic_body_cases in Hb; [exact Hb|exact Hlen].
    + intros m Hm.
      destruct (for_break_range_exhausted _ _ _ _ _ Hr m Hm)
        as (t & [sp' er'] & Hbm).
      apply curves_to_quadratic_body_cases in Hbm; [exact Hbm|exact Hlen].
  - rewrite bind_Ok. apply for_break_range_Break in Hr.
    destruct Hr as (n' & s0 & Hn' & Hbody & Hbefore).
    apply curves_to_quadratic_body_cases in Hbody; [|exact Hlen].
    exists sp, er, n'. repeat split; auto; try lia.
    intros m Hm. destruct (Hbefore m Hm) as (t & [sp' er'] & Hbm).
    apply curves_to_quadratic_body_cases in Hbm; [exact Hbm|exact Hlen].
Qed.

(** A successful batch search, for tolerances comparable with [0],
    stopped at some [n] with the candidates of that [n]. *)
Lemma curves_to_quadratic_success curves max_errors splines errors :
  Forall comparable_with_zero max_errors ->
  curves_to_quadratic splitCubicAtT curves max_errors = Ok (splines, errors) ->
  exists n,
    1 <= n <= 100 /\
    batch_result splitCubicAtT n curves max_errors splines errors.
Proof.
  intros Hord H. unfold curves_to_quadratic in H.
  destruct (Nat.eqb (length max_errors) (length curves)) eqn:Hlen;
    cbn [negb] in H; [|discriminate].
  apply Nat.eqb_eq in Hlen.
  destruct (for_break _ _ _) as [[[sp er]|[sp er]]|ex] eqn:E;
    cbn [bind] in H; try discriminate.
  - exfalso.
    change (MAX_N + 1) with (100 + 1) in E.
    apply for_break_range_Next in E; [|lia]. destruct E as (s0 & Hbody).
    destruct (curves_to_quadratic_body_unsampled splitCubicAtT split_length
                curves max_errors 100 s0)
      as (sps & Hall & Hb); [lia|exact Hlen|].
    rewrite Hb in Hbody. cbv zeta in Hbody.
    destruct (forallb (nle (of_int 0)) max_errors) eqn:Hf; [discriminate|].
    injection Hbody as Hsp Her. subst sp er.
    destruct (raise_first_offending_zero curves max_errors sps Hlen)
      as [(Hnone & _)|(k & c & m & _ & _ & _ & _ & Hr)].
    + eapply Forall2_impl; [|exact Hall]. intros c sp (s & -> & _). eauto.
    + now apply (unmet_tolerance_offends max_errors Hord Hf).
    + cbv zeta in Hr. rewrite Hr in H. discriminate.
  - inversion H; subst. clear H.
    apply for_break_range_Break in E.
    destruct E as (n & s0 & Hn & Hbody & _).
    apply curves_to_quadratic_body_cases in Hbody; [|exact Hlen].
    exists n. unfold MAX_N in Hn. split; [lia|exact Hbody].
Qed.

(** X7.  The outcomes of [curves_to_quadratic]: [AssertionError] exactly
    when the two lists differ in length; otherwise either a pair of lists
    as long as the input, or [ApproxNotFoundError] carrying a curve of the
    input whose tolerance is below [0], with error [0].  No other
    exception escapes. *)
Theorem curves_to_quadratic_outcomes curves max_errors :
  (length max_errors <> length curves /\
   curves_to_quadratic splitCubicAtT curves max_errors
   = Raise AssertionError) \/
  (length max_errors = length curves /\
   exists splines errors,
     curves_to_quadratic splitCubicAtT curves max_errors
     = Ok (splines, errors) /\
     length splines = length curves /\ length errors = length curves) \/
  (length max_errors = length curves /\
   exists k c max_err,
     nth_error curves k = Some c /\
     nth_error max_errors k = Some max_err /\
     ngt (of_int 0) max_err = true /\
     curves_to_quadratic splitCubicAtT curves max_errors
     = Raise (ApproxNotFoundError c (Some (of_int 0)))).
Proof.
  unfold curves_to_quadratic.
  destruct (Nat.eqb (length max_errors) (length curves)) eqn:Hlen;
    cbn [negb].
  2:{ left. apply Nat.eqb_neq in Hlen. auto. }
  apply Nat.eqb_eq in Hlen. right.
  destruct (for_break_total
              (curves_to_quadratic_body splitCubicAtT curves max_errors)
              (range 1 (MAX_N + 1))
              (repeat None (length curves), repeat None (length curves)))
    as (r & Hr).
  { intros m st Hm. apply range_In in Hm.
    apply (curves_to_quadratic_body_runs splitCubicAtT split_length). lia. }
  rewrite Hr, bind_Ok. destruct r as [[sp er]|[sp er]].
  - change (MAX_N + 1) with (100 + 1) in Hr.
    apply for_break_range_Next in Hr; [|lia]. destruct Hr as (s0 & Hbody).
    destruct (curves_to_quadratic_body_unsampled splitCubicAtT split_length
                curves max_errors 100 s0)
      as (sps & Hall & Hb); [lia|exact Hlen|].
    rewrite Hb in Hbody. cbv zeta in Hbody.
    destruct (forallb (nle (of_int 0)) max_errors) eqn:Hf; [discriminate|].
    injection Hbody as Hsp Her. subst sp er.
    assert (Hsome : Forall2 (fun (c : cubic) (sp : option (list point)) =>
                               exists s, sp = Some s) curves sps).
    { eapply Forall2_impl; [|exact Hall]. intros c sp (s & -> & _). eauto. }
    destruct (raise_first_offending_zero curves max_errors sps Hlen Hsome)
      as [(_ & Hr)|(k & c & m & Hc & Hm & Hgt & _ & Hr)];
      cbv zeta in Hr; rewrite Hr; cbn [bind].
    + left. split; [exact Hlen|]. eexists _, _. split; [reflexivity|].
      split.
      * symmetry. eapply Forall2_length; eauto.
      * now rewrite length_map, repeat_length.
    + right. split; [exact Hlen|]. exists k, c, m. auto.
  - left. split; [exact Hlen|]. exists sp, er. split; [reflexivity|].
    apply for_break_range_Break in Hr.
    destruct Hr as (n & s0 & Hn & Hbody & _).
    apply curves_to_quadratic_body_cases in Hbody; [|exact Hlen].
    eapply batch_result_same_length; eauto.
Qed.

(** X8.  When some [n] in [1..100] satisfies the tolerance of every curve
    (and there are as many tolerances as curves), [curves_to_quadratic]
    succeeds and returns the candidates of the smallest such [n]. *)
Theorem curves_to_quadratic_finds_shared_n curves max_errors (n : Z) :
  length max_errors = length curves ->
  1 <= n <= 100 ->
  all_satisfy splitCubicAtT curves max_errors n ->
  exists splines errors n',
    curves_to_quadratic splitCubicAtT curves max_errors
    = Ok (splines, errors) /\
    1 <= n' <= n /\
    batch_result splitCubicAtT n' curves max_errors splines errors /\
    forall m, 1 <= m < n' ->
      ~ all_satisfy splitCubicAtT curves max_errors m.
Proof.
  intros Hlen Hn Hall.
  destruct (curves_to_quadratic_complete curves max_errors n Hlen Hn Hall)
    as (splines & errors & n' & Hn' & H & Hres & Hmin).
  exists splines, errors, n'. repeat split; auto; lia.
Qed.

End Batch_outcomes.

Section Batch_and_single.

Context {A : Arith}.
Variable splitCubicAtT : point -> point -> point -> point -> list num -> list cubic.

Lemma curves_to_quadratic_body_singleton (p : cubic) (max_err : num) (n : Z)
    st :
  curves_to_quadratic_body splitCubicAtT [p] [max_err] n (singleton_state st)
  = singleton_flow (curve_to_quadratic_body splitCubicAtT p max_err n st).
Proof.
  destruct st as [sp er].
  unfold curves_to_quadratic_body, curve_to_quadratic_body, singleton_state.
  cbn [fst snd comprehension].
  destruct (cubic_approx_spline_total splitCubicAtT p n)
    as [->|(s & -> & Ht)]; cbn [bind]; [reflexivity|].
  cbn [forallb]. rewrite Ht. cbn [andb negb].
  unfold spline_dists. cbn [combine comprehension fst snd].
  destruct (curve_spline_dist p s) as [e|ex]; cbn [bind]; [|reflexivity].
  cbn [combine all_within le_opt bind].
  destruct (nle e max_err); reflexivity.
Qed.

Lemma for_break_singleton (p : cubic) (max_err : num) xs st :
  for_break xs (singleton_state st)
    (curves_to_quadratic_body splitCubicAtT [p] [max_err])
  = singleton_flow
      (for_break xs st (curve_to_quadratic_body splitCubicAtT p max_err)).
Proof.
  revert st. induction xs as [|x xs IH]; intros st; [reflexivity|].
  rewrite !for_break_cons, curves_to_quadratic_body_singleton.
  destruct (curve_to_quadratic_body splitCubicAtT p max_err x st)
    as [[t|t]|ex]; cbn [singleton_flow bind]; [apply IH|reflexivity..].
Qed.

(** X9.  A batch of one curve behaves as the single search: what
    [curve_to_quadratic(p, max_err)] returns, [curves_to_quadratic([p],
    [max_err])] returns in lists of one element; and when the single
    search raises [ApproxNotFoundError] with an error above the tolerance,
    the batch search raises the same. *)
Theorem curves_to_quadratic_singleton (p : cubic) (max_err : num) :
  (forall spline error,
     curve_to_quadratic splitCubicAtT p max_err = Ok (spline, error) ->
     curves_to_quadratic splitCubicAtT [p] [max_err]
     = Ok ([spline], [error])) /\
  (forall e,
     curve_to_quadratic splitCubicAtT p max_err
     = Raise (ApproxNotFoundError p (Some e)) ->
     ngt e max_err = true ->
     curves_to_quadratic splitCubicAtT [p] [max_err]
     = Raise (ApproxNotFoundError p (Some e))).
Proof.
  assert (Hloop := for_break_singleton p max_err (range 1 (MAX_N + 1))
                     (None, None)).
  unfold curve_to_quadratic, curves_to_quadratic.
  cbn [length Nat.eqb negb repeat].
  change ([None], [None]) with (singleton_state (@None (list point), @None num)).
  rewrite Hloop.
  destruct (for_break _ (None, None) _) as [[[sp er]|[sp er]]|ex];
    cbn [singleton_flow singleton_state fst snd bind]; split;
    try discriminate.
  - intros e [= ->] Hgt. unfold zip4. cbn [combine raise_first_offending].
    destruct sp as [s|]; cbn [bind]; [|reflexivity].
    rewrite Hgt. reflexivity.
  - intros spline error [= <- <-]. reflexivity.
  - intros e [= ->] _. reflexivity.
Qed.

Hypothesis split_length : forall p0 p1 p2 p3 ts,
  length (splitCubicAtT p0 p1 p2 p3 ts) = S (length ts).

Lemma batch_result_nth (n : Z) curves max_errors splines errors k c m :
  batch_result splitCubicAtT n curves max_errors splines errors ->
  nth_error curves k = Some c ->
  nth_error max_errors k = Some m ->
  exists s e,
    nth_error splines k = Some (Some s) /\
    nth_error errors k = Some (Some e) /\
    cubic_approx_spline splitCubicAtT c n = Ok (Some s) /\
    curve_spline_dist c s = Ok e /\
    nle e m = true.
Proof.
  intros H. revert k. induction H as [|c0 m0 s e ? ? ? ? Hs Hd Hle _ IH];
    intros [|k] Hc Hm; simpl in Hc, Hm; try discriminate.
  - inversion Hc; inversion Hm; subst. exists s, e. simpl. auto.
  - simpl. apply IH; assumption.
Qed.

(** X10.  A shared segment count is never smaller than a curve needs on
    its own: when [curves_to_quadratic] succeeds (tolerances comparable
    with [0]), every curve of the batch, searched alone with its own
    tolerance, succeeds too, with a spline that has no more points than
    the one the batch returned for it. *)
Theorem curves_to_quadratic_covers_single curves max_errors splines errors
    k c max_err :
  Forall comparable_with_zero max_errors ->
  curves_to_quadratic splitCubicAtT curves max_errors = Ok (splines, errors) ->
  nth_error curves k = Some c ->
  nth_error max_errors k = Some max_err ->
  exists shared s e,
    nth_error splines k = Some (Some shared) /\
    curve_to_quadratic splitCubicAtT c max_err = Ok (Some s, Some e) /\
    (length s <= length shared)%nat.
Proof.
  intros Hord H Hc Hm.
  destruct (curves_to_quadratic_success splitCubicAtT split_length
              curves max_errors splines errors Hord H) as (n & Hn & Hres).
  destruct (batch_result_nth n _ _ _ _ k c max_err Hres Hc Hm)
    as (sb & eb & Hsb & _ & Hs & Hd & Hle).
  destruct (curve_to_quadratic_complete splitCubicAtT split_length
              c max_err n Hn) as (s & e & n' & Hn' & H' & Hs' & _).
  { exists sb, eb. auto. }
  exists sb, s, e. repeat split; auto.
  pose proof (cubic_approx_spline_length splitCubicAtT split_length
                c n sb ltac:(lia) Hs).
  pose proof (cubic_approx_spline_length splitCubicAtT split_length
                c n' s ltac:(lia) Hs'). lia.
Qed.

(** X11.  With as many tolerances as curves, each of them met by [0]
    ([0 <= max_err]), the batch search always returns: the candidates of
    one [n] from 1 to 21, one spline and one error per curve. *)
Theorem curves_to_quadratic_nonnegative_tolerances curves max_errors :
  length max_errors = length curves ->
  Forall (fun max_err => nle (of_int 0) max_err = true) max_errors ->
  exists splines errors n,
    curves_to_quadratic splitCubicAtT curves max_errors
    = Ok (splines, errors) /\
    1 <= n <= 21 /\
    batch_result splitCubicAtT n curves max_errors splines errors /\
    length splines = length curves /\
    length errors = length curves.
Proof.
  intros Hlen Htol.
  assert (Hall : all_satisfy splitCubicAtT curves max_errors 21).
  { clear - Hlen Htol split_length. revert curves Hlen.
    induction Htol as [|m ms Hm _ IH]; intros [|c curves] Hlen;
      try discriminate; constructor.
    - destruct (candidate_21 splitCubicAtT split_length c 21)
        as (s & Hs & _ & Hd); [lia|]. exists s, (of_int 0). auto.
    - apply IH. now inversion Hlen. }
  destruct (curves_to_quadratic_complete splitCubicAtT split_length
              curves max_errors 21 Hlen ltac:(lia) Hall)
    as (splines & errors & n & Hn & H & Hres & _).
  destruct (batch_result_same_length splitCubicAtT n _ _ _ _ Hres).
  exists splines, errors, n. repeat split; auto; lia.
Qed.

End Batch_and_single.

(** ** Geometry in exact arithmetic *)

Declare Scope num_scope.
Delimit Scope num_scope with num.

Section Exact_geometry.

Context {A : Arith}.

Hypothesis num_ring :
  ring_theory (of_int 0) (of_int 1) nadd nmul nsub nneg (@eq num).

Add Ring num_ring_geometry : num_ring.

Local Infix "+" := nadd : num_scope.
Local Infix "-" := nsub : num_scope.
Local Infix "*" := nmul : num_scope.

Lemma lerp_0 (a b : num) : lerp a b (of_int 0) = a.
Proof. unfold lerp. ring. Qed.

Lemma lerp_1 (a b : num) : lerp a b (of_int 1) = b.
Proof. unfold lerp. ring. Qed.

(** X12.  Interpolation is exact at the ends: [lerp_pt] gives its first
    point at [t = 0] and its second at [t = 1], and a quadratic or cubic
    Bezier curve starts at its first point and ends at its last. *)
Theorem bezier_endpoints :
  (forall p1 p2 : point,
     lerp_pt p1 p2 (of_int 0) = p1 /\ lerp_pt p1 p2 (of_int 1) = p2) /\
  (forall a b c : point,
     quadratic_bezier_at (a, b, c) (of_int 0) = a /\
     quadratic_bezier_at (a, b, c) (of_int 1) = c) /\
  (forall p : cubic,
     cubic_bezier_at p (of_int 0) = p_0 p /\ cubic_bezier_at p (of_int 1) = p_3 p).
Proof.
  split; [|split].
  - intros [x1 y1] [x2 y2]. unfold lerp_pt.
    now rewrite !lerp_0, !lerp_1.
  - intros [x1 y1] [x2 y2] [x3 y3]. unfold quadratic_bezier_at.
    now rewrite !lerp_0, !lerp_1.
  - intros [[[[x1 y1] [x2 y2]] [x3 y3]] [x4 y4]].
    unfold cubic_bezier_at, p_0, p_3. now rewrite !lerp_0, !lerp_1.
Qed.

(** X13.  [vector] and [translate] undo each other: translating [p1] by
    the vector from [p1] to [p2] gives [p2], and the vector from [p] to
    [p] translated by [v] is [v]. *)
Theorem vector_translate_round_trip :
  (forall p1 p2 : point, translate p1 (vector p1 p2) = p2) /\
  (forall p v : point, vector p (translate p v) = v).
Proof.
  split.
  - intros [x1 y1] [x2 y2]. unfold translate, vector. cbn [fst snd].
    f_equal; ring.
  - intros [x y] [vx vy]. unfold translate, vector. cbn [fst snd].
    f_equal; ring.
Qed.

(** Twice the literal [1.5] is three. *)
Hypothesis twice_lit_1_5 :
  ((of_int 1 + of_int 1) * lit_1_5 = of_int 1 + of_int 1 + of_int 1)%num.

(** A control point whose extension by half ends in [q]. *)
Lemma elevated_control (a b q : num) :
  lerp a b lit_1_5 = q ->
  ((of_int 1 + of_int 1 + of_int 1) * b = (of_int 1 + of_int 1) * q + a)%num.
Proof.
  intros <-. unfold lerp.
  transitivity
    ((of_int 1 + of_int 1) * a - ((of_int 1 + of_int 1) * lit_1_5) * a
     + ((of_int 1 + of_int 1) * lit_1_5) * b + a)%num; [|ring].
  rewrite twice_lit_1_5. ring.
Qed.

(** One coordinate of a cubic that is an elevated quadratic. *)
Lemma elevated_coordinate (a b c d q t : num) :
  lerp a b lit_1_5 = q ->
  lerp d c lit_1_5 = q ->
  lerp (lerp (lerp a b t) (lerp b c t) t)
       (lerp (lerp b c t) (lerp c d t) t) t
  = lerp (lerp a q t) (lerp q d t) t.
Proof.
  intros Hb Hc. apply elevated_control in Hb, Hc. unfold lerp.
  transitivity
    ((of_int 1 - t) * (of_int 1 - t) * (of_int 1 - t) * a
     + (of_int 1 - t) * (of_int 1 - t) * t
       * ((of_int 1 + of_int 1 + of_int 1) * b)
     + (of_int 1 - t) * t * t * ((of_int 1 + of_int 1 + of_int 1) * c)
     + t * t * t * d)%num; [ring|].
  rewrite Hb, Hc. ring.
Qed.

(** An elevated quadratic and its cubic pass through the same points. *)
Lemma elevated_same_point (p : cubic) (q : point) (t : num) :
  elevation_of q p ->
  cubic_bezier_at p t = quadratic_bezier_at (p_0 p, q, p_3 p) t.
Proof.
  intros (H1 & H2).
  destruct p as [[[[ax ay] [bx by_]] [cx cy]] [dx dy]], q as [qx qy].
  unfold p_0, p_1, p_2, p_3, lerp_pt in H1, H2.
  injection H1 as H1x H1y. injection H2 as H2x H2y.
  unfold cubic_bezier_at, quadratic_bezier_at, p_0, p_3.
  f_equal; apply elevated_coordinate; assumption.
Qed.

(** X14.  A cubic that is a quadratic in disguise is recognised: when both
    extended tangents of [p] end in [q], [cubic_approx(p, t)] is the
    quadratic [(p[0], q, p[3])] whatever [t], and that quadratic passes
    through the same point as the cubic at every parameter. *)
Theorem cubic_approx_of_elevated (p : cubic) (q : point) (t : num) :
  elevation_of q p ->
  cubic_approx p t = (p_0 p, q, p_3 p) /\
  cubic_bezier_at p t = quadratic_bezier_at (p_0 p, q, p_3 p) t.
Proof.
  intros Hq. split; [|exact (elevated_same_point p q t Hq)].
  destruct Hq as (H1 & H2).
  unfold cubic_approx. rewrite H1, H2. destruct q as [qx qy].
  unfold lerp_pt, lerp. repeat f_equal; ring.
Qed.

End Exact_geometry.

Section Exact_intersection.

Context {A : Arith}.

Hypothesis num_ring :
  ring_theory (of_int 0) (of_int 1) nadd nmul nsub nneg (@eq num).
Hypothesis div_mul : forall x y,
  is_zero y = false -> nmul y (ndiv x y) = x.

(** X16.  [calc_intersect] either raises [ValueError], exactly when the
    two lines are parallel, or returns the point where they meet: a point
    [c + h * cd] of the line through [c] and [d] such that the vector from
    [a] to it is orthogonal to the normal of [ab], that is a point of the
    line through [a] and [b].  The [ZeroDivisionError] never escapes. *)
Theorem calc_intersect_outcomes (a b c d : point) :
  (parallel_tangents (a, b, c, d) = true /\
   calc_intersect (a, b, c, d) = Raise ValueError) \/
  (parallel_tangents (a, b, c, d) = false /\
   exists r h,
     calc_intersect (a, b, c, d) = Ok r /\
     r = translate c (scale (vector c d) h) /\
     dot (normal (vector a b)) (vector a r) = of_int 0).
Proof.
  destruct (parallel_tangents (a, b, c, d)) eqn:Hpar.
  - left. split; [reflexivity|]. now rewrite calc_intersect_cases, Hpar.
  - right. split; [reflexivity|].
    assert (Hr : exists r, calc_intersect (a, b, c, d) = Ok r)
      by (rewrite calc_intersect_cases, Hpar; eauto).
    destruct Hr as (r & Hr).
    destruct (calc_intersect_meets_both_lines num_ring div_mul a b c d r Hr)
      as (Hab & h & Hcd).
    exists r, h. auto.
Qed.

End Exact_intersection.

(** ** The rationals meet the hypotheses of exact arithmetic *)

Lemma Qc_twice_lit_1_5 :
  @nmul Qc_arith (nadd (of_int 1) (of_int 1)) lit_1_5
  = nadd (nadd (of_int 1) (of_int 1)) (of_int 1).
Proof. apply Qc_is_canon. reflexivity. Qed.

Lemma Qc_hypot_nonneg (x y : @num Qc_arith) :
  nle (of_int 0) (hypot x y) = true.
Proof.
  cbn [nle hypot of_int Qc_arith]. apply Qle_bool_iff.
  unfold Qc_hypot. cbn [this Q2Qc]. rewrite !Qred_correct.
  unfold Qle. simpl. rewrite Z.mul_1_r. apply Z.sqrt_nonneg.
Qed.

Lemma Qc_nle_trans (x y z : @num Qc_arith) :
  nle x y = true -> nle y z = true -> nle x z = true.
Proof.
  cbn [nle Qc_arith]. rewrite !Qle_bool_iff. apply Qle_trans.
Qed.

Lemma elevated_cubic_is_elevation :
  elevation_of (Qc_point 3 3) elevated_cubic.
Proof. split; apply Qc_point_eq; reflexivity. Qed.

(** ** Witnesses of the further properties *)

Lemma cubic_approx_spline_any_n_witness :
  (0 = 1 /\ cubic_approx_spline subdivide hill_cubic 0 = Ok None) \/
  exists ctrl,
    cubic_approx_spline subdivide hill_cubic 0
    = Ok (Some (p_0 hill_cubic :: ctrl ++ [p_3 hill_cubic])) /\
    Z.of_nat (length ctrl) = Z.max 0 1.
Proof.
  exact (cubic_approx_spline_any_n subdivide (@subdivide_length Qc_arith)
           hill_cubic 0).
Defined.

Lemma curve_spline_dist_by_length_witness :
  length [p_0 hill_cubic; p_3 hill_cubic] = 2%nat /\
  curve_spline_dist hill_cubic [p_0 hill_cubic; p_3 hill_cubic]
  = Raise ZeroDivisionError.
Proof.
  split; [reflexivity|].
  exact (proj1 (proj2 (curve_spline_dist_by_length hill_cubic
                         [p_0 hill_cubic; p_3 hill_cubic])) eq_refl).
Defined.

Lemma curve_spline_dist_nonnegative_witness :
  curve_spline_dist hill_cubic hill_run_spline = Ok hill_run_error /\
  nle (of_int 0) hill_run_error = true.
Proof.
  assert (H : curve_spline_dist hill_cubic hill_run_spline
              = Ok hill_run_error) by (vm_compute; reflexivity).
  split; [exact H|].
  exact (curve_spline_dist_nonnegative hill_cubic hill_run_spline
           hill_run_error eq_refl Qc_hypot_nonneg H).
Defined.

Lemma curve_to_quadratic_outcomes_witness :
  (exists s e n,
     curve_to_quadratic subdivide hill_cubic minus_one
     = Ok (Some s, Some e) /\
     1 <= n <= 100 /\
     cubic_approx_spline subdivide hill_cubic n = Ok (Some s) /\
     curve_spline_dist hill_cubic s = Ok e /\
     nle e minus_one = true /\
     forall m, 1 <= m < n -> ~ satisfies subdivide hill_cubic minus_one m) \/
  (curve_to_quadratic subdivide hill_cubic minus_one
   = Raise (ApproxNotFoundError hill_cubic (Some (of_int 0))) /\
   nle (of_int 0) minus_one = false /\
   forall n, 1 <= n <= 100 -> ~ satisfies subdivide hill_cubic minus_one n).
Proof.
  exact (curve_to_quadratic_outcomes subdivide (@subdivide_length Qc_arith)
           hill_cubic minus_one).
Defined.

Lemma curve_to_quadratic_nonnegative_tolerance_witness :
  nle (of_int 0) (@of_int Qc_arith 0) = true /\
  exists s e n,
    curve_to_quadratic subdivide arch_cubic (of_int 0)
    = Ok (Some s, Some e) /\
    1 <= n <= 21 /\
    Z.of_nat (length s) = n + 2 /\
    getitem (A := Qc_arith) s 0 = Ok (p_0 arch_cubic) /\
    getitem (A := Qc_arith) s (-1) = Ok (p_3 arch_cubic) /\
    nle e (of_int 0) = true.
Proof.
  split; [reflexivity|].
  exact (curve_to_quadratic_nonnegative_tolerance subdivide
           (@subdivide_length Qc_arith) arch_cubic (of_int 0) eq_refl).
Defined.

Lemma curve_to_quadratic_monotone_witness :
  (forall x, nle x tenth = true -> nle x thousand = true) /\
  hill_run = Ok (Some hill_run_spline, Some hill_run_error) /\
  exists s' e',
    curve_to_quadratic subdivide hill_cubic thousand
    = Ok (Some s', Some e') /\
    (length s' <= length hill_run_spline)%nat.
Proof.
  assert (Hgen : forall x : @num Qc_arith,
            nle x tenth = true -> nle x thousand = true).
  { intros x Hx. apply (Qc_nle_trans x tenth thousand Hx). reflexivity. }
  assert (H : hill_run = Ok (Some hill_run_spline, Some hill_run_error))
    by (vm_compute; reflexivity).
  split; [exact Hgen|]. split; [exact H|].
  exact (curve_to_quadratic_monotone subdivide (@subdivide_length Qc_arith)
           hill_cubic tenth thousand _ _ Hgen H).
Defined.

Lemma curves_to_quadratic_outcomes_witness :
  (length hopeless_tolerances <> length hopeless_curves /\
   curves_to_quadratic subdivide hopeless_curves hopeless_tolerances
   = Raise AssertionError) \/
  (length hopeless_tolerances = length hopeless_curves /\
   exists splines errors,
     curves_to_quadratic subdivide hopeless_curves hopeless_tolerances
     = Ok (splines, errors) /\
     length splines = length hopeless_curves /\
     length errors = length hopeless_curves) \/
  (length hopeless_tolerances = length hopeless_curves /\
   exists k c max_err,
     nth_error hopeless_curves k = Some c /\
     nth_error hopeless_tolerances k = Some max_err /\
     ngt (of_int 0) max_err = true /\
     curves_to_quadratic subdivide hopeless_curves hopeless_tolerances
     = Raise (ApproxNotFoundError c (Some (of_int 0)))).
Proof.
  exact (curves_to_quadratic_outcomes subdivide (@subdivide_length Qc_arith)
           hopeless_curves hopeless_tolerances).
Defined.

Lemma hill_and_straight_satisfy_2 :
  all_satisfy subdivide [hill_cubic; straight_cubic] [tenth; tenth] 2.
Proof.
  repeat constructor; apply within_tolerance_iff; vm_compute; reflexivity.
Qed.

Lemma curves_to_quadratic_finds_shared_n_witness :
  length [tenth; tenth] = length [hill_cubic; straight_cubic] /\
  1 <= 2 <= 100 /\
  all_satisfy subdivide [hill_cubic; straight_cubic] [tenth; tenth] 2 /\
  exists splines errors n',
    curves_to_quadratic subdivide [hill_cubic; straight_cubic] [tenth; tenth]
    = Ok (splines, errors) /\
    1 <= n' <= 2 /\
    batch_result subdivide n' [hill_cubic; straight_cubic] [tenth; tenth]
      splines errors /\
    forall m, 1 <= m < n' ->
      ~ all_satisfy subdivide [hill_cubic; straight_cubic] [tenth; tenth] m.
Proof.
  split; [reflexivity|]. split; [lia|].
  split; [exact hill_and_straight_satisfy_2|].
  exact (curves_to_quadratic_finds_shared_n subdivide
           (@subdivide_length Qc_arith) [hill_cubic; straight_cubic]
           [tenth; tenth] 2 eq_refl ltac:(lia) hill_and_straight_satisfy_2).
Defined.

Lemma curves_to_quadratic_singleton_witness :
  hill_run = Ok (Some hill_run_spline, Some hill_run_error) /\
  curves_to_quadratic subdivide [hill_cubic] [tenth]
  = Ok ([Some hill_run_spline], [Some hill_run_error]).
Proof.
  assert (H : hill_run = Ok (Some hill_run_spline, Some hill_run_error))
    by (vm_compute; reflexivity).
  split; [exact H|].
  exact (proj1 (curves_to_quadratic_singleton subdivide hill_cubic tenth)
           _ _ H).
Defined.

Lemma curves_to_quadratic_covers_single_witness :
  Forall comparable_with_zero [tenth; tenth] /\
  batch_run = Ok (batch_run_splines, batch_run_errors) /\
  nth_error [hill_cubic; straight_cubic] 1 = Some straight_cubic /\
  nth_error [tenth; tenth] 1 = Some tenth /\
  exists shared s e,
    nth_error batch_run_splines 1 = Some (Some shared) /\
    curve_to_quadratic subdivide straight_cubic tenth
    = Ok (Some s, Some e) /\
    (length s <= length shared)%nat.
Proof.
  assert (Hord : Forall comparable_with_zero [tenth; tenth])
    by (repeat constructor; apply Qc_comparable_with_zero).
  assert (H : batch_run = Ok (batch_run_splines, batch_run_errors))
    by (vm_compute; reflexivity).
  split; [exact Hord|]. split; [exact H|].
  split; [reflexivity|]. split; [reflexivity|].
  exact (curves_to_quadratic_covers_single subdivide
           (@subdivide_length Qc_arith) [hill_cubic; straight_cubic]
           [tenth; tenth] _ _ 1%nat straight_cubic tenth Hord H
           eq_refl eq_refl).
Defined.

Lemma curves_to_quadratic_nonnegative_tolerances_witness :
  length [tenth; tenth] = length [hill_cubic; straight_cubic] /\
  Forall (fun max_err : @num Qc_arith => nle (of_int 0) max_err = true)
    [tenth; tenth] /\
  exists splines errors n,
    curves_to_quadratic subdivide [hill_cubic; straight_cubic] [tenth; tenth]
    = Ok (splines, errors) /\
    1 <= n <= 21 /\
    batch_result subdivide n [hill_cubic; straight_cubic] [tenth; tenth]
      splines errors /\
    length splines = length [hill_cubic; straight_cubic] /\
    length errors = length [hill_cubic; straight_cubic].
Proof.
  assert (Htol : Forall (fun max_err : @num Qc_arith =>
                           nle (of_int 0) max_err = true) [tenth; tenth])
    by (repeat constructor).
  split; [reflexivity|]. split; [exact Htol|].
  exact (curves_to_quadratic_nonnegative_tolerances subdivide
           (@subdivide_length Qc_arith) [hill_cubic; straight_cubic]
           [tenth; tenth] eq_refl Htol).
Defined.

Lemma bezier_endpoints_witness :
  cubic_bezier_at hill_cubic (of_int 0) = p_0 hill_cubic /\
  cubic_bezier_at hill_cubic (of_int 1) = p_3 hill_cubic.
Proof.
  exact (proj2 (proj2 (bezier_endpoints Qc_ring)) hill_cubic).
Defined.

Lemma vector_translate_round_trip_witness :
  translate (p_0 hill_cubic) (vector (p_0 hill_cubic) (p_1 hill_cubic))
  = p_1 hill_cubic.
Proof.
  exact (proj1 (vector_translate_round_trip Qc_ring)
           (p_0 hill_cubic) (p_1 hill_cubic)).
Defined.

Lemma cubic_approx_of_elevated_witness :
  elevation_of (Qc_point 3 3) elevated_cubic /\
  cubic_approx elevated_cubic tenth
  = (p_0 elevated_cubic, Qc_point 3 3, p_3 elevated_cubic) /\
  cubic_bezier_at elevated_cubic tenth
  = quadratic_bezier_at
      (p_0 elevated_cubic, Qc_point 3 3, p_3 elevated_cubic) tenth.
Proof.
  split; [exact elevated_cubic_is_elevation|].
  exact (cubic_approx_of_elevated Qc_ring Qc_twice_lit_1_5 elevated_cubic
           (Qc_point 3 3) tenth elevated_cubic_is_elevation).
Defined.

Lemma calc_intersect_outcomes_witness :
  (parallel_tangents crossing_lines = true /\
   calc_intersect crossing_lines = Raise ValueError) \/
  (parallel_tangents crossing_lines = false /\
   exists r h,
     calc_intersect crossing_lines = Ok r /\
     r = translate (p_2 crossing_lines)
           (scale (vector (p_2 crossing_lines) (p_3 crossing_lines)) h) /\
     dot (normal (vector (p_0 crossing_lines) (p_1 crossing_lines)))
       (vector (p_0 crossing_lines) r) = of_int 0).
Proof.
  exact (calc_intersect_outcomes Qc_ring Qc_div_mul
           (Qc_point 0 0) (Qc_point 1 0) (Qc_point 1 1) (Qc_point 1 2)).
Defined.

Lemma minus_one_below_errors (e : @num Qc_arith) :
  nle (of_int 0) e = true -> nle e minus_one = false.
Proof.
  cbn [nle Qc_arith]. intros He. apply Qle_bool_iff in He.
  destruct (Qle_bool e minus_one) eqn:E; [|reflexivity].
  apply Qle_bool_iff in E.
  assert (Hc : (this (@of_int Qc_arith 0) <= this minus_one)%Q)
    by (eapply Qle_trans; eauto).
  exfalso. revert Hc. vm_compute. intros Hc. apply Hc. reflexivity.
Qed.

Lemma curve_to_quadratic_negative_tolerance_witness :
  nle (of_int 0) (@of_int Qc_arith 0) = true /\
  (forall x y : @num Qc_arith, nle (of_int 0) (hypot x y) = true) /\
  (forall e : @num Qc_arith,
     nle (of_int 0) e = true -> nle e minus_one = false) /\
  curve_to_quadratic subdivide hill_cubic minus_one
  = Raise (ApproxNotFoundError hill_cubic (Some (of_int 0))).
Proof.
  split; [reflexivity|]. split; [exact Qc_hypot_nonneg|].
  split; [exact minus_one_below_errors|].
  exact (curve_to_quadratic_negative_tolerance subdivide
           (@subdivide_length Qc_arith) hill_cubic minus_one eq_refl
           Qc_hypot_nonneg minus_one_below_errors).
Defined.
